(** * ai-review: token-budgeted prompt chunking and the retrying HTTP transport

    A shallow embedding of

    - [ai_review/libs/llm/tokenizer.py]          (module [Tokenizer]),
    - [ai_review/services/prompt/service.py]     (module [PromptService]),
    - [ai_review/libs/http/transports/retry.py]  (module [Retry]),
    - [ai_review/clients/litelmm/client.py]      (module [LiteLLMHTTPClient]),
    - [ai_review/libs/config/prompt.py]          (module [PromptFiles]),
    - [ai_review/clients/litelmm/schema.py]      (module [LiteLLMSchema]),
    - [ai_review/services/llm/litelmm/client.py] (module [LiteLLMClient]),
    - [ai_review/services/review/gateway/review_llm_gateway.py]
                                                 (module [Gateway]),

    followed by the properties of section 8 of the specification
    (modules [PromptServiceSpec] and [RetrySpec]) and by further
    properties of the code (modules [RetryProperties],
    [ChunkerProperties], [TokenizerProperties], [PromptFilesProperties],
    [LiteLLMProperties], [GatewayProperties] and
    [LiteLLMHTTPClientProperties]).

    Python values are modelled as follows.  [int] is [Z]; [str] is
    [string], a character being one of the 256 of Latin-1 (the chunker
    uses only [len], slicing, [split], [join] and [startswith], none of
    which looks inside a character; [lower] and [strip] do); a [list] is
    a [list]; [None]-or-value is [option].  A call that can raise returns
    a [result]; the [while] loop of [split_prompt] is defined by
    well-founded recursion on the lines that are left.  Services that the
    code receives or imports from modules outside these files
    ([load_resource], the file system, [requests], the hooks, the LLM
    client, the cost and artifact services) are parameters: functions
    that return or raise. *)

From Equations Require Import Equations.
From Stdlib Require Import ZArith List Bool String Ascii Lia Arith.
From Stdlib Require Import DecimalString QArith_base.
Import ListNotations.

Set Default Goal Selector "!".

Open Scope string_scope.
Open Scope list_scope.
Open Scope Z_scope.

(* ===================================================================== *)
(** ** Python runtime: exceptions, results, strings, [range]             *)
(* ===================================================================== *)

Module Py.

(** An exception class is known by its name and the names of its proper
    ancestors (its method resolution order without itself). *)
Record exc_class : Type := mk_class {
  cls_name  : string;
  cls_bases : list string
}.

(** An exception object: its class and [str(e)]. *)
Record exc : Type := mk_exc {
  exc_type : exc_class;
  exc_str  : string
}.

Definition issubclass (c d : exc_class) : bool :=
  String.eqb (cls_name c) (cls_name d)
  || existsb (String.eqb (cls_name d)) (cls_bases c).

(** [isinstance(e, classes)] with a tuple of classes. *)
Definition isinstance (e : exc) (classes : list exc_class) : bool :=
  existsb (issubclass (exc_type e)) classes.

Definition BaseException : exc_class := mk_class "BaseException" ["object"].
Definition Exception : exc_class :=
  mk_class "Exception" ["BaseException"; "object"].
Definition ValueError : exc_class :=
  mk_class "ValueError" ["Exception"; "BaseException"; "object"].
Definition ZeroDivisionError : exc_class :=
  mk_class "ZeroDivisionError"
    ["ArithmeticError"; "Exception"; "BaseException"; "object"].
(** [asyncio.CancelledError] derives from [BaseException] only. *)
Definition CancelledError : exc_class :=
  mk_class "CancelledError" ["BaseException"; "object"].

Inductive result (A : Type) : Type :=
| Ok (a : A)
| Raise (e : exc).
Arguments Ok {A} a.
Arguments Raise {A} e.

Definition bind {A B : Type} (r : result A) (k : A -> result B) : result B :=
  match r with
  | Ok a => k a
  | Raise e => Raise e
  end.

(** *** Strings *)

Definition LF : ascii := Ascii.ascii_of_nat 10.
Definition nl : string := String LF EmptyString.

Definition len (s : string) : Z := Z.of_nat (String.length s).

(** Truth value of a [str]: non-empty. *)
Definition truthy (s : string) : bool :=
  match s with
  | EmptyString => false
  | String _ _ => true
  end.

(** [s.split("\n")]: always at least one piece. *)
Fixpoint split_lines (s : string) : list string :=
  match s with
  | EmptyString => [EmptyString]
  | String c s' =>
      if Ascii.eqb c LF then EmptyString :: split_lines s'
      else match split_lines s' with
           | piece :: pieces => String c piece :: pieces
           | [] => [String c EmptyString]
           end
  end.

(** ["\n".join(lines)]. *)
Definition join_lines (lines : list string) : string :=
  String.concat nl lines.

Definition startswith (s p : string) : bool := String.prefix p s.

(** [s[i:j]] for [0 <= i]; an empty string when [j <= i]. *)
Definition slice (s : string) (i j : Z) : string :=
  String.substring (Z.to_nat i) (Z.to_nat (j - i)) s.

(** [needle in hay] for two [str]. *)
Fixpoint contains (needle hay : string) : bool :=
  String.prefix needle hay
  || match hay with
     | EmptyString => false
     | String _ hay' => contains needle hay'
     end.

(** [c.lower()] for a character below 256: the letters [A] to [Z] and the
    capital letters of Latin-1 (all of 192 to 222 but the multiplication
    sign, 215) move up by 32. *)
Definition lower_char (c : ascii) : ascii :=
  let n := Ascii.nat_of_ascii c in
  if ((65 <=? n) && (n <=? 90)
      || (192 <=? n) && (n <=? 222) && negb (n =? 215))%nat
  then Ascii.ascii_of_nat (n + 32)
  else c.

(** [s.lower()] *)
Fixpoint lower (s : string) : string :=
  match s with
  | EmptyString => EmptyString
  | String c s' => String (lower_char c) (lower s')
  end.

(** [c.isspace()] for a character below 256. *)
Definition isspace (c : ascii) : bool :=
  let n := Ascii.nat_of_ascii c in
  ((9 <=? n) && (n <=? 13) || (28 <=? n) && (n <=? 32)
   || (n =? 133) || (n =? 160))%nat.

(** [s.lstrip()], [s.rstrip()] and [s.strip()] without argument. *)
Fixpoint lstrip (s : string) : string :=
  match s with
  | EmptyString => EmptyString
  | String c s' => if isspace c then lstrip s' else s
  end.

Fixpoint rstrip (s : string) : string :=
  match s with
  | EmptyString => EmptyString
  | String c s' =>
      match rstrip s' with
      | EmptyString => if isspace c then EmptyString else String c EmptyString
      | String _ _ as kept => String c kept
      end
  end.

Definition strip (s : string) : string := rstrip (lstrip s).

(** [s * n]: [n] copies of [s]. *)
Fixpoint str_mul (s : string) (n : nat) : string :=
  match n with
  | O => EmptyString
  | S n' => (s ++ str_mul s n')%string
  end.

(** [str(n)] for an [int]. *)
Definition str_of_int (n : Z) : string :=
  NilZero.string_of_int (Z.to_int n).

(** *** [range(start, stop, step)] *)

Definition range_len (start stop step : Z) : nat :=
  if 0 <? step then Z.to_nat ((stop - start + step - 1) / step)
  else Z.to_nat ((start - stop - step - 1) / (- step)).

Definition range (start stop step : Z) : result (list Z) :=
  if step =? 0 then
    Raise (mk_exc ValueError "range() arg 3 must not be zero")
  else
    Ok (map (fun k => start + Z.of_nat k * step)
            (seq 0 (range_len start stop step))).

End Py.

Import Py.

Notation "x <- c ;; k" := (Py.bind c (fun x => k))
  (at level 61, c at next level, right associativity).

(* ===================================================================== *)
(** ** libs/llm/tokenizer.py                                             *)
(* ===================================================================== *)

Module Tokenizer.

(** The [tiktoken] encoding is an external library object.  All the code
    uses of it is [len(encoding.encode(text))], which may raise: an
    encoding is the function giving that length, or [None] when
    [encode] raises. *)
Definition encoding : Type := string -> option nat.

(** [TiktokenTokenizer]: [_tokenizer] is [None] when [tiktoken] could not
    be imported or initialised. *)
Record TiktokenTokenizer : Type := {
  _tokenizer : option encoding
}.

(** Fallback token counting: [len(text) // 4 + 1]. *)
Definition fallback_count (text : string) : Z := len text / 4 + 1.

(** [TiktokenTokenizer.count_tokens]. *)
Definition count_tokens (self : TiktokenTokenizer) (text : string) : Z :=
  match _tokenizer self with
  | Some enc =>
      match enc text with
      | Some n => Z.of_nat n
      | None => fallback_count text
      end
  | None => fallback_count text
  end.

(** [SimpleTokenizer.count_tokens]:
    [len(text) // self.average_chars_per_token + 1]. *)
Definition simple_count_tokens (average_chars_per_token : Z)
    (text : string) : result Z :=
  if average_chars_per_token =? 0 then
    Raise (mk_exc ZeroDivisionError "integer division or modulo by zero")
  else Ok (len text / average_chars_per_token + 1).

(** The tokenizer of an installation without [tiktoken]. *)
Definition no_tiktoken : TiktokenTokenizer := {| _tokenizer := None |}.

(** The [tiktoken] module, when it can be imported: its [get_encoding],
    which gives an encoding or raises ([None]). *)
Definition tiktoken_module : Type := string -> option encoding.

(** [TiktokenTokenizer.__init__]: whatever goes wrong leaves
    [_tokenizer] at [None]. *)
Definition TiktokenTokenizer_init (tiktoken : option tiktoken_module)
    (encoding_name : string) : TiktokenTokenizer :=
  match tiktoken with
  | Some get_encoding => {| _tokenizer := get_encoding encoding_name |}
  | None => {| _tokenizer := None |}
  end.

(** [any(keyword in model for keyword in keywords)] *)
Definition any_keyword (keywords : list string) (model : string) : bool :=
  existsb (fun keyword => contains keyword model) keywords.

(** [TokenizerFactory.get_tokenizer] *)
Definition get_tokenizer (tiktoken : option tiktoken_module) (model : string)
  : TiktokenTokenizer :=
  let model := lower model in
  if any_keyword ["gpt"; "openai"; "azure"] model then
    TiktokenTokenizer_init tiktoken "cl100k_base"
  else if any_keyword ["claude"; "anthropic"] model then
    TiktokenTokenizer_init tiktoken "cl100k_base"
  else if contains "gemini" model then
    TiktokenTokenizer_init tiktoken "cl100k_base"
  else if any_keyword ["llama"; "ollama"; "litelmm"] model then
    TiktokenTokenizer_init tiktoken "cl100k_base"
  else TiktokenTokenizer_init tiktoken "cl100k_base".

(** [_default_tokenizer = TokenizerFactory.get_tokenizer()] *)
Definition _default_tokenizer (tiktoken : option tiktoken_module)
  : TiktokenTokenizer :=
  get_tokenizer tiktoken "default".

(** The module-level [count_tokens(text, model)]. *)
Definition count_tokens_for (tiktoken : option tiktoken_module)
    (text model : string) : Z :=
  if String.eqb model "default" then
    count_tokens (_default_tokenizer tiktoken) text
  else count_tokens (get_tokenizer tiktoken model) text.

End Tokenizer.

(* ===================================================================== *)
(** ** services/prompt/service.py                                        *)
(* ===================================================================== *)

Module PromptService.
Import Tokenizer.

Definition is_file_header (line : string) : bool :=
  startswith line "# File:".

(** The lines collected by
    [while i < len(lines) and not lines[i].startswith("# File:")],
    and the lines left after it. *)
Fixpoint section_body (lines : list string) : list string :=
  match lines with
  | [] => []
  | l :: rest => if is_file_header l then [] else l :: section_body rest
  end.

Fixpoint after_section (lines : list string) : list string :=
  match lines with
  | [] => []
  | l :: rest => if is_file_header l then lines else after_section rest
  end.

Lemma after_section_length (lines : list string) :
  (List.length (after_section lines) <= List.length lines)%nat.
Proof.
  induction lines as [|l rest IH]; simpl; [lia|].
  destruct (is_file_header l); simpl; lia.
Qed.

Section WithTokenizer.

(** [_default_tokenizer], fixed when the module is imported. *)
Variable default_tokenizer : TiktokenTokenizer.

(** The module-level [count_tokens(text)] of tokenizer.py, as the service
    calls it: [_default_tokenizer.count_tokens(text)]. *)
Definition count (text : string) : Z := count_tokens default_tokenizer text.

(** [_split_large_line] *)
Definition _split_large_line (line : string) (max_tokens : Z)
  : result (list string) :=
  let avg_chars_per_token := 4 in
  let max_chars := max_tokens * avg_chars_per_token in
  starts <- range 0 (len line) max_chars ;;
  Ok (map (fun i => slice line i (i + max_chars)) starts).

(** A completed chunk is appended only when it has content. *)
Definition flush (chunks current_chunk : list string) : list string :=
  match current_chunk with
  | [] => chunks
  | _ :: _ => chunks ++ [join_lines current_chunk]
  end.

(** The body of [for i, line in enumerate(lines)] in
    [_split_large_section]. *)
Fixpoint section_loop (header : option string) (max_tokens : Z)
    (i : Z) (lines : list string)
    (chunks current_chunk : list string) (current_tokens : Z)
  : result (list string) :=
  match lines with
  | [] => Ok (flush chunks current_chunk)
  | line :: rest =>
      let line_tokens := count line in
      if current_tokens + line_tokens <=? max_tokens then
        section_loop header max_tokens (i + 1) rest
          chunks (current_chunk ++ [line]) (current_tokens + line_tokens)
      else
        let '(chunks, current_chunk, current_tokens) :=
          match current_chunk with
          | _ :: _ =>
              let chunks := chunks ++ [join_lines current_chunk] in
              match header with
              | Some h =>
                  if truthy h && (0 <? i) then (chunks, [h], count h)
                  else (chunks, [], 0)
              | None => (chunks, [], 0)
              end
          | [] => (chunks, current_chunk, current_tokens)
          end in
        if count line <=? max_tokens then
          let '(current_chunk, current_tokens) :=
            match current_chunk, header with
            | [], Some h =>
                if truthy h then ([h], count h)
                else (current_chunk, current_tokens)
            | _, _ => (current_chunk, current_tokens)
            end in
          section_loop header max_tokens (i + 1) rest
            chunks (current_chunk ++ [line]) (current_tokens + line_tokens)
        else
          sub_chunks <- _split_large_line line max_tokens ;;
          let sub_chunks :=
            match header with
            | Some h =>
                if truthy h
                then map (fun chunk => (h ++ nl ++ chunk)%string) sub_chunks
                else sub_chunks
            | None => sub_chunks
            end in
          section_loop header max_tokens (i + 1) rest
            (chunks ++ sub_chunks) current_chunk current_tokens
  end.

(** [_split_large_section] *)
Definition _split_large_section (section : string) (max_tokens : Z)
  : result (list string) :=
  let lines := split_lines section in
  let header :=
    match lines with
    | l0 :: _ => if is_file_header l0 then Some l0 else None
    | [] => None
    end in
  section_loop header max_tokens 0 lines [] [] 0.

(** The [while i < len(lines)] loop of [split_prompt]; [lines] is
    [lines[i:]]. *)
Equations? split_loop (available_tokens : Z) (lines : list string)
    (chunks current_chunk : list string) (current_tokens : Z)
  : result (list string)
  by wf (2 * List.length lines + List.length current_chunk)%nat lt :=
  split_loop available_tokens [] chunks current_chunk current_tokens :=
    Ok (flush chunks current_chunk);
  split_loop available_tokens (line :: rest) chunks current_chunk
      current_tokens with is_file_header line := {
    | true :=
        let chunks1 := flush chunks current_chunk in
        let current_tokens1 :=
          match current_chunk with
          | [] => current_tokens
          | _ :: _ => 0
          end in
        let file_section := line :: section_body rest in
        let file_text := join_lines file_section in
        let file_tokens := count file_text in
        if file_tokens <=? available_tokens then
          split_loop available_tokens (after_section rest)
            (chunks1 ++ [file_text]) [] current_tokens1
        else
          match _split_large_section file_text available_tokens with
          | Ok sub_chunks =>
              split_loop available_tokens (after_section rest)
                (chunks1 ++ sub_chunks) [] current_tokens1
          | Raise e => Raise e
          end;
    | false with current_tokens + count line <=? available_tokens,
                 current_chunk := {
      | true, current :=
          split_loop available_tokens rest
            chunks (current ++ [line]) (current_tokens + count line);
      | false, c :: cs :=
          split_loop available_tokens (line :: rest)
            (chunks ++ [join_lines (c :: cs)]) [] 0;
      | false, [] :=
          match _split_large_line line available_tokens with
          | Ok sub_chunks =>
              split_loop available_tokens rest
                (chunks ++ sub_chunks) [] current_tokens
          | Raise e => Raise e
          end } }.
Proof.
  all: try (pose proof (after_section_length rest)).
  all: try rewrite length_app.
  all: simpl; lia.
Qed.

(** The first two assignments of [split_prompt]:
    [system_tokens = count_tokens(system_prompt) if system_prompt else 0]
    and [available_tokens = max_tokens - system_tokens - 100]. *)
Definition system_tokens (system_prompt : string) : Z :=
  if truthy system_prompt then count system_prompt else 0.

Definition available_tokens (max_tokens : Z) (system_prompt : string) : Z :=
  max_tokens - system_tokens system_prompt - 100.

(** [split_prompt] *)
Definition split_prompt (prompt : string) (max_tokens : Z)
    (system_prompt : string) : result (list string) :=
  let available_tokens := available_tokens max_tokens system_prompt in
  if available_tokens <=? 0 then Ok []
  else if count prompt <=? available_tokens then Ok [prompt]
  else
    let lines := split_lines prompt in
    split_loop available_tokens lines [] [] 0.

End WithTokenizer.

(** *** Vocabulary of the properties

    A section is its header line and the lines up to the next header; the
    lines of a prompt are some lines before the first header followed by
    sections. *)

Definition file_section : Type := (string * list string)%type.

Definition section_lines (s : file_section) : list string := fst s :: snd s.

Definition section_text (s : file_section) : string :=
  join_lines (section_lines s).

Definition plain_lines (lines : list string) : Prop :=
  Forall (fun l => is_file_header l = false) lines.

Definition well_formed_section (s : file_section) : Prop :=
  is_file_header (fst s) = true /\ plain_lines (snd s).

(** The lines left when a section has been collected: none, or a header
    first. *)
Definition starts_section (lines : list string) : Prop :=
  match lines with
  | [] => True
  | l :: _ => is_file_header l = true
  end.

(** The number of header lines of a chunk. *)
Definition header_lines (chunk : string) : nat :=
  List.length (filter is_file_header (split_lines chunk)).

(** What the accumulator of [split_prompt] adds up: the token counts of
    the lines, one line at a time. *)
Definition line_tokens_sum (tk : TiktokenTokenizer) (lines : list string) : Z :=
  fold_right (fun l acc => count tk l + acc) 0 lines.

(** Every section that starts in [lines] fits the budget, so that
    [split_prompt] never hands one to [_split_large_section]. *)
Fixpoint sections_fit (tk : TiktokenTokenizer) (available : Z)
    (lines : list string) : Prop :=
  match lines with
  | [] => True
  | l :: rest =>
      (is_file_header l = true ->
       count tk (join_lines (l :: section_body rest)) <= available)
      /\ sections_fit tk available rest
  end.

(** Every line that is not a header fits the budget on its own, so that
    [split_prompt] never force-splits one. *)
Definition plain_lines_fit (tk : TiktokenTokenizer) (available : Z)
    (lines : list string) : Prop :=
  Forall (fun l => is_file_header l = false -> count tk l <= available) lines.

(** The lines of a list of chunks, in order. *)
Definition lines_of (chunks : list string) : list string :=
  List.concat (map split_lines chunks).

Fixpoint has_LF (s : string) : bool :=
  match s with
  | EmptyString => false
  | String c s' => Ascii.eqb c LF || has_LF s'
  end.

End PromptService.

(* ===================================================================== *)
(** ** libs/http/transports/retry.py                                     *)
(* ===================================================================== *)

Module Retry.

(** The parts of [httpx.Request] and [httpx.Response] the transport
    reads.  [httpx.Response] defines neither [__bool__] nor [__len__]:
    every response object is true. *)
Record Request : Type := {
  method : string;
  url    : string
}.

Record Response : Type := {
  status_code : Z;
  content     : string
}.

(** The exception classes of [httpx] named in the defaults, and two that
    are not retried by default. *)
Definition httpx_class (name : string) (bases : list string) : exc_class :=
  mk_class name (bases ++ ["Exception"; "BaseException"; "object"]).

Definition ReadTimeout : exc_class :=
  httpx_class "ReadTimeout"
    ["TimeoutException"; "TransportError"; "RequestError"; "HTTPError"].
Definition ConnectTimeout : exc_class :=
  httpx_class "ConnectTimeout"
    ["TimeoutException"; "TransportError"; "RequestError"; "HTTPError"].
Definition WriteTimeout : exc_class :=
  httpx_class "WriteTimeout"
    ["TimeoutException"; "TransportError"; "RequestError"; "HTTPError"].
Definition NetworkError : exc_class :=
  httpx_class "NetworkError" ["TransportError"; "RequestError"; "HTTPError"].
Definition ConnectError : exc_class :=
  httpx_class "ConnectError"
    ["NetworkError"; "TransportError"; "RequestError"; "HTTPError"].

(** What a call leaves behind, in order. *)
Inductive event : Type :=
| Send (request : Request)
    (** [await self.transport.handle_async_request(request)] *)
| LogWarning (attempt : nat) (max_retries : Z) (cause : Response + exc)
    (** [self.logger.warning("Attempt {attempt}/{max_retries} failed ...")] *)
| LogError (max_retries : Z) (last_status : Z)
    (** [self.logger.error("All {max_retries} attempts failed ...")] *)
| Sleep (delay : Q)
    (** [await asyncio.sleep(self.retry_delay)] *).

(** The wrapped one-shot transport: what its invocation number [k]
    (from 0) does with a request. *)
Definition AsyncBaseTransport : Type := nat -> Request -> result Response.

(** [max_retries] is whatever [int] the caller passes: [__init__] stores
    it unchecked, also when it is negative. *)
Record RetryTransport : Type := {
  transport          : AsyncBaseTransport;
  max_retries        : Z;
  retry_delay        : Q;
  retry_status_codes : list Z;
  retry_exceptions   : list exc_class
}.

(** [__init__] with its default arguments. *)
Definition default_retry_status_codes : list Z := [502; 504; 503; 500].
Definition default_retry_exceptions : list exc_class :=
  [ReadTimeout; ConnectTimeout; NetworkError].

Definition init (transport : AsyncBaseTransport) : RetryTransport :=
  {| transport := transport;
     max_retries := 5;
     retry_delay := Qmake 1 2;
     retry_status_codes := default_retry_status_codes;
     retry_exceptions := default_retry_exceptions |}.

Definition is_send (ev : event) : bool :=
  match ev with
  | Send _ => true
  | _ => false
  end.

Definition is_sleep (ev : event) : bool :=
  match ev with
  | Sleep _ => true
  | _ => false
  end.

(** How often the wrapped transport was invoked. *)
Definition invocations (trace : list event) : nat :=
  List.length (filter is_send trace).

Definition sleeps (trace : list event) : nat :=
  List.length (filter is_sleep trace).

(** [status_code in self.retry_status_codes] *)
Definition retry_status (self : RetryTransport) (response : Response) : bool :=
  existsb (Z.eqb (status_code response)) (retry_status_codes self).

(** The exhaustion error of the last line:
    [Exception(f"All {self.max_retries} attempts failed for
    {request.method} {request.url}")]. *)
Definition all_attempts_failed (self : RetryTransport) (request : Request)
  : exc :=
  mk_exc Exception
    ("All " ++ str_of_int (max_retries self)
     ++ " attempts failed for " ++ method request ++ " " ++ url request).

(** The number of items of [range(self.max_retries)]: none for a
    negative [max_retries], as for zero. *)
Definition n_attempts (self : RetryTransport) : nat :=
  Z.to_nat (max_retries self).

(** [for attempt in range(self.max_retries)] and the code after it;
    [attempts] is what is left of the range. *)
Fixpoint attempt_loop (self : RetryTransport) (request : Request)
    (attempts : list nat) (last_response : option Response)
    (trace : list event) : result Response * list event :=
  match attempts with
  | [] =>
      match last_response with
      | Some response =>
          (Ok response,
           trace ++ [LogError (max_retries self) (status_code response)])
      | None => (Raise (all_attempts_failed self request), trace)
      end
  | attempt :: attempts' =>
      let outcome := transport self (invocations trace) request in
      let trace := trace ++ [Send request] in
      match outcome with
      | Ok response =>
          if negb (retry_status self response) then (Ok response, trace)
          else
            let trace :=
              trace ++ [LogWarning (attempt + 1) (max_retries self)
                          (inl response)] in
            let trace := trace ++ [Sleep (retry_delay self)] in
            attempt_loop self request attempts' (Some response) trace
      | Raise e =>
          (* [except Exception as e] *)
          if issubclass (exc_type e) Exception then
            if isinstance e (retry_exceptions self) then
              let trace :=
                trace ++ [LogWarning (attempt + 1) (max_retries self)
                            (inr e)] in
              let trace := trace ++ [Sleep (retry_delay self)] in
              attempt_loop self request attempts' last_response trace
            else (Raise e, trace)
          else (Raise e, trace)
      end
  end.

(** [RetryTransport.handle_async_request]; [range(self.max_retries)] is
    [0], ..., [max_retries - 1]. *)
Definition handle_async_request (self : RetryTransport) (request : Request)
  : result Response * list event :=
  attempt_loop self request (seq 0 (n_attempts self)) None [].

(** *** Vocabulary of the properties *)

(** An exception the loop retries: caught by [except Exception] and an
    instance of one of [retry_exceptions]. *)
Definition retryable_exception (self : RetryTransport) (e : exc) : bool :=
  issubclass (exc_type e) Exception && isinstance e (retry_exceptions self).

(** An attempt after which the loop goes on. *)
Definition retryable_failure (self : RetryTransport)
    (outcome : result Response) : bool :=
  match outcome with
  | Ok response => retry_status self response
  | Raise e => retryable_exception self e
  end.

(** The trace after one retried attempt. *)
Definition retried (self : RetryTransport) (request : Request)
    (attempt : nat) (cause : Response + exc) (trace : list event)
  : list event :=
  ((trace ++ [Send request])
   ++ [LogWarning (attempt + 1) (max_retries self) cause])
  ++ [Sleep (retry_delay self)].

(** *** Transports and requests of the examples *)

Definition always_responds (status : Z) : AsyncBaseTransport :=
  fun _ _ => Ok {| status_code := status; content := "" |}.

Definition always_raises (e : exc) : AsyncBaseTransport :=
  fun _ _ => Raise e.

(** Fails on the first [failures] invocations, alternating a 503 and a
    read timeout, then answers 200. *)
Definition flaky (failures : nat) : AsyncBaseTransport :=
  fun k _ =>
    if (k <? failures)%nat then
      if Nat.even k then Ok {| status_code := 503; content := "" |}
      else Raise (mk_exc ReadTimeout "timed out")
    else Ok {| status_code := 200; content := "ok" |}.

(** Two read timeouts, then an exception that is not retried. *)
Definition timeouts_then (e : exc) : AsyncBaseTransport :=
  fun k _ =>
    if (k <? 2)%nat then Raise (mk_exc ReadTimeout "timed out") else Raise e.

(** A 503 on the first invocation, read timeouts afterwards. *)
Definition responds_once_then_times_out : AsyncBaseTransport :=
  fun k _ =>
    if (k =? 0)%nat then Ok {| status_code := 503; content := "busy" |}
    else Raise (mk_exc ReadTimeout "timed out").

Definition chat_request : Request :=
  {| method := "POST"; url := "https://llm.example/chat/completions" |}.

(** [RetryTransport(logger, transport, max_retries=n)] *)
Definition with_max_retries (n : Z) (transport : AsyncBaseTransport)
  : RetryTransport :=
  {| transport := transport;
     max_retries := n;
     retry_delay := retry_delay (init transport);
     retry_status_codes := default_retry_status_codes;
     retry_exceptions := default_retry_exceptions |}.

End Retry.

(* ===================================================================== *)
(** ** clients/litelmm/client.py                                         *)
(* ===================================================================== *)

Module LiteLLMHTTPClient.

(** The [retry_transport] of [get_litelmm_http_client]: a
    [RetryTransport] around the HTTP transport, every other argument left
    at its default. *)
Definition retry_transport (http_transport : Retry.AsyncBaseTransport)
  : Retry.RetryTransport :=
  Retry.init http_transport.

End LiteLLMHTTPClient.

(* ===================================================================== *)
(** ** libs/config/prompt.py                                             *)
(* ===================================================================== *)

Module PromptFiles.

(** A prompt source is a local [Path] or an [AnyUrl].  Of a URL the code
    uses [source.scheme], [str(source)] and, in an error message,
    [type(source)] as Python prints it. *)
Inductive source : Type :=
| Path (path : string)
| AnyUrl (scheme url type_repr : string).

(** What [requests.get] returns, as far as the code uses it. *)
Record Response : Type := {
  raise_for_status : result unit;
  text             : string
}.

Record PromptConfig : Type := {
  inline_prompt_files               : option (list source);
  context_prompt_files              : option (list source);
  summary_prompt_files              : option (list source);
  inline_reply_prompt_files         : option (list source);
  summary_reply_prompt_files        : option (list source);
  system_inline_prompt_files        : option (list source);
  system_context_prompt_files       : option (list source);
  system_summary_prompt_files       : option (list source);
  system_inline_reply_prompt_files  : option (list source);
  system_summary_reply_prompt_files : option (list source);
  include_inline_system_prompts        : bool;
  include_context_system_prompts       : bool;
  include_summary_system_prompts       : bool;
  include_inline_reply_system_prompts  : bool;
  include_summary_reply_system_prompts : bool
}.

(** The defaults of the class: nothing configured, system prompts
    included. *)
Definition default_config : PromptConfig :=
  {| inline_prompt_files := None;
     context_prompt_files := None;
     summary_prompt_files := None;
     inline_reply_prompt_files := None;
     summary_reply_prompt_files := None;
     system_inline_prompt_files := None;
     system_context_prompt_files := None;
     system_summary_prompt_files := None;
     system_inline_reply_prompt_files := None;
     system_summary_reply_prompt_files := None;
     include_inline_system_prompts := true;
     include_context_system_prompts := true;
     include_summary_system_prompts := true;
     include_inline_reply_system_prompts := true;
     include_summary_reply_system_prompts := true |}.

Section WithResources.

(** [ai_review.libs.resources.load_resource(package, filename, fallback)],
    [Path.read_text] and [requests.get]: each returns or raises. *)
Variable load_resource : string -> string -> string -> result source.
Variable read_text : string -> result string.
Variable requests_get : string -> result Response.

(** The one-element list both resolvers build. *)
Definition default_files (default_file : string) : result (list source) :=
  resource <- load_resource "ai_review.prompts" default_file
                ("ai_review/prompts/" ++ default_file)%string ;;
  Ok [resource].

(** [resolve_prompt_files]: [files or [load_resource(...)]]; the right
    operand of [or] is evaluated only when [files] is [None] or empty. *)
Definition resolve_prompt_files (files : option (list source))
    (default_file : string) : result (list source) :=
  match files with
  | Some (file :: files') => Ok (file :: files')
  | Some [] | None => default_files default_file
  end.

(** [resolve_system_prompt_files]: [global_files] is built first. *)
Definition resolve_system_prompt_files (files : option (list source))
    (include : bool) (default_file : string) : result (list source) :=
  global_files <- default_files default_file ;;
  match files with
  | None => Ok global_files
  | Some files' => if include then Ok (global_files ++ files') else Ok files'
  end.

Definition inline_prompt_files_or_default (self : PromptConfig) :=
  resolve_prompt_files (inline_prompt_files self) "default_inline.md".
Definition context_prompt_files_or_default (self : PromptConfig) :=
  resolve_prompt_files (context_prompt_files self) "default_context.md".
Definition summary_prompt_files_or_default (self : PromptConfig) :=
  resolve_prompt_files (summary_prompt_files self) "default_summary.md".
Definition inline_reply_prompt_files_or_default (self : PromptConfig) :=
  resolve_prompt_files (inline_reply_prompt_files self)
    "default_inline_reply.md".
Definition summary_reply_prompt_files_or_default (self : PromptConfig) :=
  resolve_prompt_files (summary_reply_prompt_files self)
    "default_summary_reply.md".

Definition system_inline_prompt_files_or_default (self : PromptConfig) :=
  resolve_system_prompt_files (system_inline_prompt_files self)
    (include_inline_system_prompts self) "default_system_inline.md".
Definition system_context_prompt_files_or_default (self : PromptConfig) :=
  resolve_system_prompt_files (system_context_prompt_files self)
    (include_context_system_prompts self) "default_system_context.md".
Definition system_summary_prompt_files_or_default (self : PromptConfig) :=
  resolve_system_prompt_files (system_summary_prompt_files self)
    (include_summary_system_prompts self) "default_system_summary.md".
Definition system_inline_reply_prompt_files_or_default
    (self : PromptConfig) :=
  resolve_system_prompt_files (system_inline_reply_prompt_files self)
    (include_inline_reply_system_prompts self)
    "default_system_inline_reply.md".
Definition system_summary_reply_prompt_files_or_default
    (self : PromptConfig) :=
  resolve_system_prompt_files (system_summary_reply_prompt_files self)
    (include_summary_reply_system_prompts self)
    "default_system_summary_reply.md".

(** [PromptConfig._load_prompt_content] *)
Definition _load_prompt_content (src : source) : result string :=
  match src with
  | Path path => read_text path
  | AnyUrl scheme url type_repr =>
      if String.eqb scheme "http" || String.eqb scheme "https" then
        response <- requests_get url ;;
        _ <- raise_for_status response ;;
        Ok (text response)
      else
        Raise (mk_exc ValueError
                 ("Unsupported prompt source type: " ++ type_repr
                  ++ " or scheme: " ++ scheme)%string)
  end.

(** [[self._load_prompt_content(source) for source in sources]] *)
Fixpoint load_all (sources : list source) : result (list string) :=
  match sources with
  | [] => Ok []
  | src :: sources' =>
      content <- _load_prompt_content src ;;
      contents <- load_all sources' ;;
      Ok (content :: contents)
  end.

Definition load_inline (self : PromptConfig) : result (list string) :=
  sources <- inline_prompt_files_or_default self ;; load_all sources.
Definition load_context (self : PromptConfig) : result (list string) :=
  sources <- context_prompt_files_or_default self ;; load_all sources.
Definition load_summary (self : PromptConfig) : result (list string) :=
  sources <- summary_prompt_files_or_default self ;; load_all sources.
Definition load_inline_reply (self : PromptConfig) : result (list string) :=
  sources <- inline_reply_prompt_files_or_default self ;; load_all sources.
Definition load_summary_reply (self : PromptConfig) : result (list string) :=
  sources <- summary_reply_prompt_files_or_default self ;; load_all sources.

Definition load_system_inline (self : PromptConfig) : result (list string) :=
  sources <- system_inline_prompt_files_or_default self ;; load_all sources.
Definition load_system_context (self : PromptConfig)
  : result (list string) :=
  sources <- system_context_prompt_files_or_default self ;; load_all sources.
Definition load_system_summary (self : PromptConfig)
  : result (list string) :=
  sources <- system_summary_prompt_files_or_default self ;; load_all sources.
Definition load_system_inline_reply (self : PromptConfig)
  : result (list string) :=
  sources <- system_inline_reply_prompt_files_or_default self ;;
  load_all sources.
Definition load_system_summary_reply (self : PromptConfig)
  : result (list string) :=
  sources <- system_summary_reply_prompt_files_or_default self ;;
  load_all sources.

End WithResources.

(** A scheme [_load_prompt_content] accepts. *)
Definition supported_scheme (scheme : string) : bool :=
  String.eqb scheme "http" || String.eqb scheme "https".

(** *** An installation to run the definitions on *)

(** The packaged defaults are present; files hold their own path as text;
    the network answers every URL with its address. *)
Definition packaged (package filename fallback : string) : result source :=
  Ok (Path fallback).
Definition missing_resource (package filename fallback : string)
  : result source :=
  Raise (mk_exc (mk_class "FileNotFoundError"
                   ["OSError"; "Exception"; "BaseException"; "object"])
           fallback).
Definition echo_file (path : string) : result string := Ok path.
Definition echo_url (url : string) : result Response :=
  Ok {| raise_for_status := Ok tt; text := url |}.

End PromptFiles.

(* ===================================================================== *)
(** ** clients/litelmm/schema.py                                         *)
(* ===================================================================== *)

Module LiteLLMSchema.

Inductive Role : Type := system | user | assistant.

Record LiteLLMUsageSchema : Type := {
  total_tokens      : Z;
  prompt_tokens     : Z;
  completion_tokens : Z
}.

Record LiteLLMMessageSchema : Type := {
  role    : Role;
  content : string
}.

Record LiteLLMChoiceSchema : Type := {
  message : LiteLLMMessageSchema
}.

Record LiteLLMChatRequestSchema : Type := {
  model       : string;
  messages    : list LiteLLMMessageSchema;
  max_tokens  : option Z;
  temperature : option Q
}.

Record LiteLLMChatResponseSchema : Type := {
  usage   : LiteLLMUsageSchema;
  choices : list LiteLLMChoiceSchema
}.

(** [LiteLLMChatResponseSchema.first_text] *)
Definition first_text (self : LiteLLMChatResponseSchema) : string :=
  match choices self with
  | [] => ""
  | choice :: _ =>
      let content := content (message choice) in
      strip (if truthy content then content else "")
  end.

End LiteLLMSchema.

(* ===================================================================== *)
(** ** services/llm/litelmm/client.py                                    *)
(* ===================================================================== *)

(** [ChatResultSchema], with the fields the client fills in. *)
Module LLMTypes.

Record ChatResultSchema : Type := {
  text              : string;
  total_tokens      : Z;
  prompt_tokens     : Z;
  completion_tokens : Z
}.

End LLMTypes.

Module LiteLLMClient.

(** [settings.llm.meta], with the fields the client reads. *)
Record LLMMetaConfig : Type := {
  model       : string;
  max_tokens  : option Z;
  temperature : option Q
}.

(** [LiteLLMLLMClient.chat]; [http_client_chat] is [self.http_client.chat],
    which returns a parsed response or raises. *)
Definition chat (meta : LLMMetaConfig)
    (http_client_chat : LiteLLMSchema.LiteLLMChatRequestSchema ->
                        result LiteLLMSchema.LiteLLMChatResponseSchema)
    (prompt prompt_system : string) : result LLMTypes.ChatResultSchema :=
  let request :=
    {| LiteLLMSchema.model := model meta;
       LiteLLMSchema.messages :=
         [ {| LiteLLMSchema.role := LiteLLMSchema.system;
              LiteLLMSchema.content := prompt_system |};
           {| LiteLLMSchema.role := LiteLLMSchema.user;
              LiteLLMSchema.content := prompt |} ];
       LiteLLMSchema.max_tokens := max_tokens meta;
       LiteLLMSchema.temperature := temperature meta |} in
  response <- http_client_chat request ;;
  Ok {| LLMTypes.text := LiteLLMSchema.first_text response;
        LLMTypes.total_tokens :=
          LiteLLMSchema.total_tokens (LiteLLMSchema.usage response);
        LLMTypes.prompt_tokens :=
          LiteLLMSchema.prompt_tokens (LiteLLMSchema.usage response);
        LLMTypes.completion_tokens :=
          LiteLLMSchema.completion_tokens (LiteLLMSchema.usage response) |}.

End LiteLLMClient.

(* ===================================================================== *)
(** ** services/review/gateway/review_llm_gateway.py                     *)
(* ===================================================================== *)

Module Gateway.
Import Tokenizer LLMTypes.

(** A run leaves a trace of events and returns or raises. *)
Definition run (E A : Type) : Type := (list E * result A)%type.

Definition ret {E A : Type} (a : A) : run E A := ([], Ok a).

(** An event that cannot fail, such as a call of the logger. *)
Definition emit {E : Type} (e : E) : run E unit := ([e], Ok tt).

(** A call of a collaborator, recorded with what it did. *)
Definition call {E A : Type} (e : E) (r : result A) : run E A := ([e], r).

Definition then_ {E A B : Type} (m : run E A) (k : A -> run E B)
  : run E B :=
  match snd m with
  | Ok a => (fst m ++ fst (k a), snd (k a))
  | Raise e => (fst m, Raise e)
  end.

(** [try: body / except cls as error: handler] *)
Definition try_except {E A : Type} (body : run E A) (cls : exc_class)
    (handler : exc -> run E A) : run E A :=
  match snd body with
  | Ok a => body
  | Raise error =>
      if issubclass (exc_type error) cls then
        (fst body ++ fst (handler error), snd (handler error))
      else body
  end.

Notation "x <~ c ;; k" := (then_ c (fun x => k))
  (at level 61, c at next level, right associativity).

Section WithReport.

(** The report of [self.cost.calculate], an object (true in a condition)
    with a method [pretty]. *)
Variable Report : Type.
Variable pretty : Report -> result string.

Inductive event : Type :=
| LogDebug (message : string)
| LogInfo (message : string)
| LogWarning (message : string)
| LogException (message : string)
| EmitChatStart (prompt prompt_system : string)
| LlmChat (prompt prompt_system : string)
| CostCalculate (result : ChatResultSchema)
| ReportPretty (report : Report)
| EmitChatComplete (result : ChatResultSchema) (report : option Report)
| SaveLlm (prompt response : string) (cost_report : option Report)
    (prompt_system : string)
| EmitChatError (prompt prompt_system : string).

(** [ReviewLLMGateway]: what its three services do when called. *)
Record ReviewLLMGateway : Type := {
  llm_chat           : string -> string -> result ChatResultSchema;
  cost_calculate     : ChatResultSchema -> result (option Report);
  artifacts_save_llm :
    string -> string -> option Report -> string -> result unit
}.

(** What [ask] reaches through module globals: the installation's
    [tiktoken], [settings.llm.meta.max_prompt_tokens] and [hook]. *)
Record Globals : Type := {
  tiktoken           : option tiktoken_module;
  max_prompt_tokens  : option Z;
  emit_chat_start    : string -> string -> result unit;
  emit_chat_complete : ChatResultSchema -> option Report -> result unit;
  emit_chat_error    : string -> string -> result unit
}.

(** [prompt_tokens + system_tokens] of [ask]. *)
Definition prompt_total_tokens (globals : Globals)
    (prompt prompt_system : string) : Z :=
  count_tokens_for (tiktoken globals) prompt "default"
  + count_tokens_for (tiktoken globals) prompt_system "default".

Definition limit_warning (total_tokens max_prompt_tokens : Z) : event :=
  LogWarning ("Prompt exceeds maximum token limit: "
              ++ str_of_int total_tokens ++ " > "
              ++ str_of_int max_prompt_tokens)%string.

Definition empty_warning (prompt : string) (total_tokens : Z) : event :=
  LogWarning ("LLM returned an empty response (prompt length="
              ++ str_of_int (len prompt) ++ " chars, tokens="
              ++ str_of_int total_tokens ++ ")")%string.

(** The [try] block of [ReviewLLMGateway.ask]. *)
Definition ask_try (self : ReviewLLMGateway) (globals : Globals)
    (prompt prompt_system : string) : run event (option string) :=
  let prompt_tokens := count_tokens_for (tiktoken globals) prompt "default" in
  let system_tokens :=
    count_tokens_for (tiktoken globals) prompt_system "default" in
  let total_tokens := prompt_tokens + system_tokens in
  _ <~ emit (LogDebug ("LLM Prompt System: " ++ prompt_system)%string) ;;
  _ <~ emit (LogDebug ("LLM Prompt: " ++ prompt)%string) ;;
  _ <~ emit (LogDebug ("Prompt token count: prompt="
                       ++ str_of_int prompt_tokens ++ ", system="
                       ++ str_of_int system_tokens ++ ", total="
                       ++ str_of_int total_tokens)%string) ;;
  _ <~ match max_prompt_tokens globals with
       | Some max_prompt_tokens =>
           if max_prompt_tokens <? total_tokens then
             emit (limit_warning total_tokens max_prompt_tokens)
           else ret tt
       | None => ret tt
       end ;;
  _ <~ call (EmitChatStart prompt prompt_system)
         (emit_chat_start globals prompt prompt_system) ;;
  result <~ call (LlmChat prompt prompt_system)
              (llm_chat self prompt prompt_system) ;;
  _ <~ emit (LogDebug ("LLM Response: " ++ text result)%string) ;;
  _ <~ (if negb (truthy (text result)) then
          emit (empty_warning prompt total_tokens)
        else ret tt) ;;
  report <~ call (CostCalculate result) (cost_calculate self result) ;;
  _ <~ match report with
       | Some report' =>
           message <~ call (ReportPretty report') (pretty report') ;;
           emit (LogInfo message)
       | None => ret tt
       end ;;
  _ <~ call (EmitChatComplete result report)
         (emit_chat_complete globals result report) ;;
  _ <~ call (SaveLlm prompt (text result) report prompt_system)
         (artifacts_save_llm self prompt (text result) report
            prompt_system) ;;
  ret (Some (text result)).

(** [ReviewLLMGateway.ask]; falling off the end of the [except] block
    returns [None]. *)
Definition ask (self : ReviewLLMGateway) (globals : Globals)
    (prompt prompt_system : string) : run event (option string) :=
  try_except (ask_try self globals prompt prompt_system) Exception
    (fun error =>
       _ <~ emit (LogException
                    ("LLM request failed: " ++ exc_str error)%string) ;;
       _ <~ call (EmitChatError prompt prompt_system)
              (emit_chat_error globals prompt prompt_system) ;;
       ret None).

(** The calls of the services and of the hook, without the log lines. *)
Definition is_log (e : event) : bool :=
  match e with
  | LogDebug _ | LogInfo _ | LogWarning _ | LogException _ => true
  | _ => false
  end.

Definition calls (trace : list event) : list event :=
  filter (fun e => negb (is_log e)) trace.

Definition with_max_prompt_tokens (globals : Globals) (limit : option Z)
  : Globals :=
  {| tiktoken := tiktoken globals;
     max_prompt_tokens := limit;
     emit_chat_start := emit_chat_start globals;
     emit_chat_complete := emit_chat_complete globals;
     emit_chat_error := emit_chat_error globals |}.

End WithReport.

Arguments LogDebug {Report} message.
Arguments LogInfo {Report} message.
Arguments LogWarning {Report} message.
Arguments LogException {Report} message.
Arguments EmitChatStart {Report} prompt prompt_system.
Arguments LlmChat {Report} prompt prompt_system.
Arguments CostCalculate {Report} result.
Arguments ReportPretty {Report} report.
Arguments EmitChatComplete {Report} result report.
Arguments SaveLlm {Report} prompt response cost_report prompt_system.
Arguments EmitChatError {Report} prompt prompt_system.
Arguments llm_chat {Report} _ _ _.
Arguments cost_calculate {Report} _ _.
Arguments artifacts_save_llm {Report} _ _ _ _ _.
Arguments tiktoken {Report} _.
Arguments max_prompt_tokens {Report} _.
Arguments emit_chat_start {Report} _ _ _.
Arguments emit_chat_complete {Report} _ _ _.
Arguments emit_chat_error {Report} _ _ _.
Arguments prompt_total_tokens {Report} globals prompt prompt_system.
Arguments limit_warning {Report} total_tokens max_prompt_tokens.
Arguments empty_warning {Report} prompt total_tokens.
Arguments ask_try {Report} pretty self globals prompt prompt_system.
Arguments ask {Report} pretty self globals prompt prompt_system.
Arguments is_log {Report} e.
Arguments calls {Report} trace.
Arguments with_max_prompt_tokens {Report} globals limit.

(** *** Services to run the definitions on *)

(** Reports are their own text; every service and hook succeeds. *)
Definition pretty_text (report : string) : result string := Ok report.

Definition answer (reply : string) : ChatResultSchema :=
  {| text := reply; total_tokens := 30; prompt_tokens := 20;
     completion_tokens := 10 |}.

Definition reliable_services (reply : string) : ReviewLLMGateway string :=
  {| llm_chat := fun _ _ => Ok (answer reply);
     cost_calculate := fun _ => Ok (Some "cost: 0.01");
     artifacts_save_llm := fun _ _ _ _ => Ok tt |}.

Definition quiet_globals (limit : option Z) : Globals string :=
  {| tiktoken := None;
     max_prompt_tokens := limit;
     emit_chat_start := fun _ _ => Ok tt;
     emit_chat_complete := fun _ _ => Ok tt;
     emit_chat_error := fun _ _ => Ok tt |}.

Definition llm_down : ReviewLLMGateway string :=
  {| llm_chat := fun _ _ =>
       Raise (mk_exc (mk_class "LiteLLMHTTPClientError"
                        ["HTTPClientError"; "Exception"; "BaseException";
                         "object"])
                "LiteLLMHTTPClient request failed");
     cost_calculate := fun _ => Ok None;
     artifacts_save_llm := fun _ _ _ _ => Ok tt |}.

Definition llm_cancelled : ReviewLLMGateway string :=
  {| llm_chat := fun _ _ => Raise (mk_exc CancelledError "");
     cost_calculate := fun _ => Ok None;
     artifacts_save_llm := fun _ _ _ _ => Ok tt |}.


End Gateway.

Import Tokenizer PromptService.

(* ===================================================================== *)
(** ** Properties of the chunker                                         *)
(* ===================================================================== *)

Module PromptServiceSpec.

(** *** Strings and slices *)

Lemma substring_empty (i n : nat) : String.substring i n "" = "".
Proof. destruct i, n; reflexivity. Qed.

Lemma substring_zero_len (i : nat) (s : string) : String.substring i 0 s = "".
Proof.
  revert i; induction s as [|c s IH]; intros [|i]; simpl; auto.
Qed.

(** A slice of [p + q] characters is a slice of [p] followed by one of [q]. *)
Lemma substring_split (s : string) :
  forall i p q : nat,
    String.substring i (p + q) s
    = (String.substring i p s ++ String.substring (i + p) q s)%string.
Proof.
  induction s as [|c s IH]; intros i p q.
  - rewrite !substring_empty. reflexivity.
  - destruct i as [|i].
    + destruct p as [|p]; simpl.
      * reflexivity.
      * rewrite (IH 0%nat p q). reflexivity.
    + simpl. apply IH.
Qed.

Lemma substring_whole (s : string) :
  forall n : nat, (String.length s <= n)%nat -> String.substring 0 n s = s.
Proof.
  induction s as [|c s IH]; intros [|n] H; simpl in *; try reflexivity; try lia.
  rewrite IH by lia. reflexivity.
Qed.

Lemma append_empty_right (s : string) : (s ++ "")%string = s.
Proof. induction s as [|c s IH]; simpl; congruence. Qed.

Lemma concat_empty_cons (x : string) (l : list string) :
  String.concat "" (x :: l) = (x ++ String.concat "" l)%string.
Proof.
  destruct l as [|y l]; simpl.
  - symmetry. apply append_empty_right.
  - reflexivity.
Qed.

(** Consecutive slices of [m] characters, [n] of them from slice number
    [a] on, make up one slice of [n * m] characters. *)
Lemma concat_consecutive_slices (s : string) (m : nat) :
  forall n a : nat,
    String.concat "" (map (fun k => String.substring (k * m) m s) (seq a n))
    = String.substring (a * m) (n * m) s.
Proof.
  induction n as [|n IH]; intros a.
  - simpl. rewrite substring_zero_len. reflexivity.
  - change (seq a (S n)) with (a :: seq (S a) n).
    cbn [map]. rewrite concat_empty_cons, IH.
    replace (S n * m)%nat with (m + n * m)%nat by lia.
    rewrite substring_split.
    replace (a * m + m)%nat with (S a * m)%nat by lia.
    reflexivity.
Qed.

(** [range(0, stop, step)] with a positive step reaches [stop]. *)
Lemma range_len_covers (stop step : Z) :
  0 <= stop -> 0 < step ->
  (Z.to_nat stop <= range_len 0 stop step * Z.to_nat step)%nat.
Proof.
  intros Hstop Hstep. unfold range_len.
  destruct (Z.ltb_spec 0 step) as [_|]; [|lia].
  pose proof (Z.div_mod (stop - 0 + step - 1) step ltac:(lia)) as Hdm.
  pose proof (Z.mod_pos_bound (stop - 0 + step - 1) step Hstep) as Hmod.
  assert (0 <= (stop - 0 + step - 1) / step) by (apply Z.div_pos; lia).
  nia.
Qed.

Lemma split_large_line_eq (line : string) (max_tokens : Z) :
  0 < max_tokens ->
  _split_large_line line max_tokens
  = Ok (map (fun k => String.substring (k * Z.to_nat (max_tokens * 4))
                        (Z.to_nat (max_tokens * 4)) line)
            (seq 0 (range_len 0 (len line) (max_tokens * 4)))).
Proof.
  intros Hpos. unfold _split_large_line, range, bind.
  destruct (Z.eqb_spec (max_tokens * 4) 0) as [|_]; [lia|].
  f_equal. rewrite map_map. apply map_ext. intros k. unfold slice.
  f_equal; lia.
Qed.

(** *** The token counter *)

Lemma fallback_count_pos (text : string) : 0 < fallback_count text.
Proof.
  unfold fallback_count, len.
  assert (0 <= Z.of_nat (String.length text) / 4) by (apply Z.div_pos; lia).
  lia.
Qed.

Lemma count_nonneg (tk : TiktokenTokenizer) (text : string) :
  0 <= count tk text.
Proof.
  unfold count, count_tokens.
  pose proof (fallback_count_pos text).
  destruct (_tokenizer tk) as [enc|]; [destruct (enc text)|]; lia.
Qed.

Lemma system_tokens_le_count (tk : TiktokenTokenizer) (system_prompt : string) :
  system_tokens tk system_prompt <= count tk system_prompt.
Proof.
  unfold system_tokens. pose proof (count_nonneg tk system_prompt).
  destruct (truthy system_prompt); lia.
Qed.

(** *** The two early returns of [split_prompt] *)

Lemma split_prompt_budget_too_small (tk : TiktokenTokenizer)
    (prompt : string) (max_tokens : Z) (system_prompt : string) :
  available_tokens tk max_tokens system_prompt <= 0 ->
  split_prompt tk prompt max_tokens system_prompt = Ok [].
Proof.
  intros H. unfold split_prompt.
  destruct (Z.leb_spec (available_tokens tk max_tokens system_prompt) 0);
    [reflexivity|lia].
Qed.

Lemma split_prompt_identity (tk : TiktokenTokenizer)
    (prompt : string) (max_tokens : Z) (system_prompt : string) :
  0 < available_tokens tk max_tokens system_prompt ->
  count tk prompt <= available_tokens tk max_tokens system_prompt ->
  split_prompt tk prompt max_tokens system_prompt = Ok [prompt].
Proof.
  intros Hpos Hfit. unfold split_prompt.
  destruct (Z.leb_spec (available_tokens tk max_tokens system_prompt) 0);
    [lia|].
  destruct (Z.leb_spec (count tk prompt)
              (available_tokens tk max_tokens system_prompt));
    [reflexivity|lia].
Qed.

Lemma split_prompt_large (tk : TiktokenTokenizer)
    (prompt : string) (max_tokens : Z) (system_prompt : string) :
  0 < available_tokens tk max_tokens system_prompt ->
  available_tokens tk max_tokens system_prompt < count tk prompt ->
  split_prompt tk prompt max_tokens system_prompt
  = split_loop tk (available_tokens tk max_tokens system_prompt)
      (split_lines prompt) [] [] 0.
Proof.
  intros Hpos Hbig. unfold split_prompt.
  destruct (Z.leb_spec (available_tokens tk max_tokens system_prompt) 0);
    [lia|].
  destruct (Z.leb_spec (count tk prompt)
              (available_tokens tk max_tokens system_prompt));
    [lia|reflexivity].
Qed.

(** *** One iteration of the [while] loop *)

Section LoopSteps.

Variable tk : TiktokenTokenizer.
Variable available : Z.

Lemma split_loop_section_fits (line : string)
    (rest chunks current_chunk : list string) (current_tokens : Z) :
  is_file_header line = true ->
  count tk (join_lines (line :: section_body rest)) <= available ->
  split_loop tk available (line :: rest) chunks current_chunk current_tokens
  = split_loop tk available (after_section rest)
      (flush chunks current_chunk ++ [join_lines (line :: section_body rest)])
      []
      (match current_chunk with [] => current_tokens | _ :: _ => 0 end).
Proof.
  intros Hh Hfit. simp split_loop. rewrite Hh. simp split_loop. cbv zeta.
  destruct (Z.leb_spec (count tk (join_lines (line :: section_body rest)))
              available); [reflexivity|lia].
Qed.

Lemma split_loop_append (line : string)
    (rest chunks current_chunk : list string) (current_tokens : Z) :
  is_file_header line = false ->
  current_tokens + count tk line <= available ->
  split_loop tk available (line :: rest) chunks current_chunk current_tokens
  = split_loop tk available rest chunks (current_chunk ++ [line])
      (current_tokens + count tk line).
Proof.
  intros Hh Hfit. simp split_loop. rewrite Hh. simp split_loop.
  destruct (Z.leb_spec (current_tokens + count tk line) available); [|lia].
  simp split_loop. reflexivity.
Qed.

End LoopSteps.

(** *** [split] and [join] *)

Lemma split_lines_not_nil (s : string) : split_lines s <> [].
Proof.
  destruct s as [|c s]; simpl; [discriminate|].
  destruct (Ascii.eqb c LF); [discriminate|].
  destruct (split_lines s); discriminate.
Qed.

Lemma split_lines_no_LF (s : string) : has_LF s = false -> split_lines s = [s].
Proof.
  induction s as [|c s IH]; simpl; [reflexivity|].
  destruct (Ascii.eqb c LF); simpl; [discriminate|].
  intros H. rewrite (IH H). reflexivity.
Qed.

Lemma split_lines_append_nl (x y : string) :
  has_LF x = false ->
  split_lines (x ++ String LF y) = x :: split_lines y.
Proof.
  induction x as [|c x IH]; simpl.
  - intros _. reflexivity.
  - destruct (Ascii.eqb c LF); simpl; [discriminate|].
    intros H. rewrite (IH H). reflexivity.
Qed.

Lemma split_join_lines (l : string) (ls : list string) :
  Forall (fun x => has_LF x = false) (l :: ls) ->
  split_lines (join_lines (l :: ls)) = l :: ls.
Proof.
  revert l. induction ls as [|l' ls IH]; intros l H.
  - simpl. apply split_lines_no_LF. now inversion H.
  - inversion H as [|? ? Hl Hls]; subst.
    change (join_lines (l :: l' :: ls))
      with (l ++ String LF (join_lines (l' :: ls)))%string.
    rewrite split_lines_append_nl by assumption.
    rewrite IH by assumption. reflexivity.
Qed.

Lemma split_lines_pieces (s : string) :
  Forall (fun x => has_LF x = false) (split_lines s).
Proof.
  induction s as [|c s IH]; simpl.
  - repeat constructor.
  - destruct (Ascii.eqb c LF) eqn:E.
    + constructor; [reflexivity|assumption].
    + destruct (split_lines s) as [|p ps].
      * repeat constructor. simpl. rewrite E. reflexivity.
      * inversion IH; subst. constructor; [|assumption].
        simpl. rewrite E. assumption.
Qed.

(** *** Sections *)

Lemma section_body_app (body rest : list string) :
  plain_lines body -> starts_section rest ->
  section_body (body ++ rest) = body /\ after_section (body ++ rest) = rest.
Proof.
  intros Hbody Hrest. induction Hbody as [|l body Hl _ IH]; simpl.
  - destruct rest as [|r rest]; simpl in *; [auto|].
    rewrite Hrest. auto.
  - rewrite Hl. destruct IH as [-> ->]. auto.
Qed.

Lemma sections_start_section (sections : list file_section) :
  Forall well_formed_section sections ->
  starts_section (List.concat (map section_lines sections)).
Proof.
  intros H. destruct H as [|s ss [Hs _] _]; simpl; auto.
Qed.

Lemma section_header_lines (s : file_section) :
  well_formed_section s ->
  Forall (fun x => has_LF x = false) (section_lines s) ->
  header_lines (section_text s) = 1%nat.
Proof.
  intros [Hh Hbody] Hlf. unfold header_lines, section_text.
  unfold section_lines in *. rewrite split_join_lines by assumption.
  simpl. rewrite Hh. simpl. f_equal.
  induction Hbody as [|l body Hl _ IH]; simpl; [reflexivity|].
  rewrite Hl. apply IH. inversion Hlf as [|? ? H1 H2]; subst.
  inversion H2; subst. constructor; assumption.
Qed.

(** *** Runs of the [while] loop *)

Lemma line_tokens_sum_nonneg (tk : TiktokenTokenizer) (lines : list string) :
  0 <= line_tokens_sum tk lines.
Proof.
  induction lines as [|l lines IH]; simpl; [lia|].
  pose proof (count_nonneg tk l). lia.
Qed.

Section LoopRuns.

Variable tk : TiktokenTokenizer.
Variable available : Z.

(** Lines before the first header pile up in the accumulator for as long
    as their token counts, added one by one, stay within the budget. *)
Lemma split_loop_plain_lines (pre : list string) :
  forall (rest chunks current_chunk : list string) (current_tokens : Z),
    plain_lines pre ->
    current_tokens + line_tokens_sum tk pre <= available ->
    split_loop tk available (pre ++ rest) chunks current_chunk current_tokens
    = split_loop tk available rest chunks (current_chunk ++ pre)
        (current_tokens + line_tokens_sum tk pre).
Proof.
  induction pre as [|l pre IH]; intros rest chunks cur tok Hplain Hsum.
  - simpl. rewrite app_nil_r, Z.add_0_r. reflexivity.
  - inversion Hplain as [|? ? Hl Hpre]; subst. simpl in *.
    pose proof (line_tokens_sum_nonneg tk pre).
    rewrite split_loop_append by (assumption || lia).
    rewrite IH by (assumption || lia).
    rewrite <- app_assoc. simpl. f_equal. lia.
Qed.

(** Sections that fit are emitted whole, one chunk each. *)
Lemma split_loop_sections (sections : list file_section) :
  forall (chunks current_chunk : list string) (current_tokens : Z),
    Forall well_formed_section sections ->
    Forall (fun s => count tk (section_text s) <= available) sections ->
    split_loop tk available (List.concat (map section_lines sections))
      chunks current_chunk current_tokens
    = Ok (flush chunks current_chunk ++ map section_text sections).
Proof.
  induction sections as [|s ss IH]; intros chunks cur tok Hwf Hfit.
  - simpl. simp split_loop. rewrite app_nil_r. reflexivity.
  - inversion Hwf as [|? ? Hs Hss]; subst.
    inversion Hfit as [|? ? Hf Hfs]; subst.
    destruct Hs as [Hhead Hbody].
    pose proof (sections_start_section ss Hss) as Hstart.
    destruct (section_body_app (snd s) _ Hbody Hstart) as [Ebody Eafter].
    cbn [map List.concat]. unfold section_lines at 1.
    cbn [app]. unfold section_text, section_lines in Hf.
    rewrite split_loop_section_fits; rewrite ?Ebody, ?Eafter; try assumption.
    rewrite IH by assumption.
    cbn [flush map]. rewrite <- app_assoc. reflexivity.
Qed.

End LoopRuns.

(** *** [split_prompt] returns *)

Lemma split_large_line_returns (line : string) (max_tokens : Z) :
  0 < max_tokens -> exists slices, _split_large_line line max_tokens = Ok slices.
Proof.
  intros H. eexists. apply split_large_line_eq. assumption.
Qed.

Lemma section_loop_returns (tk : TiktokenTokenizer) (header : option string)
    (max_tokens : Z) :
  0 < max_tokens ->
  forall (lines : list string) (i : Z) (chunks current_chunk : list string)
         (current_tokens : Z),
  exists sub_chunks,
    section_loop tk header max_tokens i lines chunks current_chunk
      current_tokens = Ok sub_chunks.
Proof.
  intros Hpos. induction lines as [|line rest IH]; intros i chunks cur tok.
  - eexists. reflexivity.
  - cbn [section_loop].
    destruct (split_large_line_returns line max_tokens Hpos) as [slices ->].
    cbn [bind].
    repeat match goal with
           | |- context [if ?b then _ else _] => destruct b
           | |- context [match ?x with _ => _ end] => destruct x
           end; apply IH.
Qed.

Lemma split_loop_returns (tk : TiktokenTokenizer) (available : Z) :
  0 < available ->
  forall (lines chunks current_chunk : list string) (current_tokens : Z),
  exists result,
    split_loop tk available lines chunks current_chunk current_tokens
    = Ok result.
Proof.
  intros Hpos lines chunks cur tok.
  funelim (split_loop tk available lines chunks cur tok).
  - eexists; reflexivity.
  - destruct (count tk (join_lines (line :: section_body rest))
              <=? available_tokens0); [auto|].
    destruct (section_loop_returns tk
                (match split_lines (join_lines (line :: section_body rest)) with
                 | l0 :: _ => if is_file_header l0 then Some l0 else None
                 | [] => None
                 end)
                available_tokens0 Hpos
                (split_lines (join_lines (line :: section_body rest)))
                0 [] [] 0) as [sub_chunks Hsub].
    unfold _split_large_section. rewrite Hsub. auto.
  - auto.
  - destruct (split_large_line_returns line available_tokens0 Hpos)
      as [slices ->]. auto.
  - auto.
Qed.

(** X1. On every input [split_prompt] returns a list of chunks: no call in it
    raises when the budget is positive, and the loop ends. *)
Theorem split_prompt_returns (tk : TiktokenTokenizer) (prompt : string)
    (max_tokens : Z) (system_prompt : string) :
  exists chunks, split_prompt tk prompt max_tokens system_prompt = Ok chunks.
Proof.
  unfold split_prompt.
  destruct (Z.leb_spec (available_tokens tk max_tokens system_prompt) 0);
    [eexists; reflexivity|].
  destruct (count tk prompt <=? available_tokens tk max_tokens system_prompt);
    [eexists; reflexivity|].
  apply split_loop_returns. assumption.
Qed.

(** *** Section 8 of the specification: P1 to P5 *)

(** C4 (P1, fit invariant): when the budget left for the prompt is
    positive and the prompt's token count is within it, [split_prompt]
    returns the one-element list holding the prompt itself.  The budget
    may be read as the code computes it ([available_tokens], where an empty
    system prompt costs nothing) or as
    [max_tokens - count_tokens(system_prompt) - 100]. *)
Theorem fit_invariant (tk : TiktokenTokenizer) (prompt : string)
    (max_tokens : Z) (system_prompt : string) (available : Z) :
  available = available_tokens tk max_tokens system_prompt
  \/ available = max_tokens - count tk system_prompt - 100 ->
  0 < available ->
  count tk prompt <= available ->
  split_prompt tk prompt max_tokens system_prompt = Ok [prompt].
Proof.
  intros Hav Hpos Hfit.
  pose proof (system_tokens_le_count tk system_prompt) as Hle.
  apply split_prompt_identity; unfold available_tokens in *; lia.
Qed.

Lemma fit_invariant_witness :
  0 < available_tokens no_tiktoken 200 "You are a reviewer."
  /\ count no_tiktoken "## Changes" <= available_tokens no_tiktoken 200 "You are a reviewer."
  /\ split_prompt no_tiktoken "## Changes" 200 "You are a reviewer."
     = Ok ["## Changes"].
Proof.
  split; [reflexivity|]. split; [discriminate|].
  apply (fit_invariant no_tiktoken "## Changes" 200 "You are a reviewer."
           (available_tokens no_tiktoken 200 "You are a reviewer.")).
  - left. reflexivity.
  - reflexivity.
  - discriminate.
Defined.

(** An empty system prompt is not counted: its share of the budget is 0
    even where the counter gives the empty string a token of its own, as
    the counter without [tiktoken] does. *)
Remark empty_system_prompt_costs_nothing :
  system_tokens no_tiktoken "" = 0
  /\ count no_tiktoken "" = 1
  /\ available_tokens no_tiktoken 101 "" = 1
  /\ split_prompt no_tiktoken "ab" 101 "" = Ok ["ab"].
Proof.
  repeat split.
Qed.

(** C5 (P3, degenerate budget), as stated, fails for an empty system
    prompt.  Without [tiktoken] the empty string counts one token, so that
    with [max_tokens = 101] the count of the system prompt plus the
    reserve of 100 reaches [max_tokens]; but the code does not count an
    empty system prompt at all, one token is left, and a prompt of one
    token comes back as a chunk. *)
Lemma empty_system_prompt_leaves_a_budget :
  count no_tiktoken "" + 100 >= 101
  /\ split_prompt no_tiktoken "ab" 101 "" = Ok ["ab"]
  /\ split_prompt no_tiktoken "ab" 101 "" <> Ok [].
Proof.
  split; [discriminate|]. split; [reflexivity|discriminate].
Qed.

(** C5 (P3, degenerate budget), amended: when the tokens the code
    reserves for the system prompt plus the reserve of 100 reach
    [max_tokens], [split_prompt] returns the empty list whatever the
    prompt is; it returns, it does not raise.  The tokens reserved for the
    system prompt are [system_tokens]: its token count when it is
    non-empty, and nothing when it is empty. *)
Theorem degenerate_budget (tk : TiktokenTokenizer) (prompt : string)
    (max_tokens : Z) (system_prompt : string) :
  system_tokens tk system_prompt + 100 >= max_tokens ->
  split_prompt tk prompt max_tokens system_prompt = Ok [].
Proof.
  intros H. apply split_prompt_budget_too_small.
  unfold available_tokens. lia.
Qed.

Lemma degenerate_budget_witness :
  system_tokens no_tiktoken "You are a reviewer." + 100 >= 105
  /\ split_prompt no_tiktoken "## Changes" 105 "You are a reviewer." = Ok [].
Proof.
  split; [discriminate|].
  apply (degenerate_budget no_tiktoken "## Changes" 105 "You are a reviewer.").
  discriminate.
Defined.

(** C6 (P5, force-split completeness): for every line and every positive
    token budget, [_split_large_line] returns slices whose concatenation,
    in order, is the line. *)
Theorem force_split_completeness (line : string) (max_tokens : Z) :
  0 < max_tokens ->
  exists slices,
    _split_large_line line max_tokens = Ok slices
    /\ String.concat "" slices = line.
Proof.
  intros Hpos. eexists. split; [apply split_large_line_eq; assumption|].
  rewrite concat_consecutive_slices. simpl (0 * _)%nat.
  apply substring_whole.
  pose proof (range_len_covers (len line) (max_tokens * 4)) as Hcov.
  unfold len in *. rewrite Nat2Z.id in Hcov. apply Hcov; lia.
Qed.

Lemma force_split_completeness_witness :
  0 < 1
  /\ exists slices,
       _split_large_line "abcdefghij" 1 = Ok slices
       /\ String.concat "" slices = "abcdefghij".
Proof.
  split; [reflexivity|].
  apply (force_split_completeness "abcdefghij" 1). reflexivity.
Defined.

(** C7 (P4, section integrity), as stated, fails.  Without [tiktoken]
    and with a budget of 3 tokens, the four lines before the header fit
    together (7 characters, 2 tokens) and so does the one section, but
    the accumulator adds the lines' own counts (1 + 1 + 1 + 1) and closes
    a chunk after the third line: three chunks, not two. *)
Lemma section_integrity_split_leading_chunk :
  let tk := no_tiktoken in
  let pre := ["a"; "b"; "c"; "d"] in
  let sections := [("# File: x", [])] in
  let prompt := join_lines (pre ++ List.concat (map section_lines sections)) in
  let available := available_tokens tk 103 "" in
  (split_lines prompt = pre ++ List.concat (map section_lines sections)
   /\ plain_lines pre
   /\ Forall well_formed_section sections
   /\ 0 < available
   /\ count tk (join_lines pre) <= available
   /\ Forall (fun s => count tk (section_text s) <= available) sections
   /\ available < count tk prompt)
  /\ split_prompt tk prompt 103 ""
     = Ok [join_lines ["a"; "b"; "c"]; "d"; "# File: x"]
  /\ ~ (exists leading section_chunks,
          split_prompt tk prompt 103 "" = Ok (leading ++ section_chunks)
          /\ List.length leading = 1%nat
          /\ List.length section_chunks = List.length sections).
Proof.
  cbv zeta. split; [|split].
  - repeat split; try reflexivity; try discriminate;
      repeat constructor; discriminate.
  - reflexivity.
  - intros (leading & section_chunks & Hrun & Hlead & Hsec).
    apply (f_equal (fun r => match r with
                             | Ok chunks => List.length chunks
                             | Raise _ => 0%nat
                             end)) in Hrun.
    rewrite length_app, Hlead, Hsec in Hrun. vm_compute in Hrun.
    discriminate.
Qed.

(** C7 (P4, section integrity), amended: let the lines of a prompt be
    some lines before the first header followed by N sections, let the
    prompt as a whole exceed the budget, let every section fit the budget,
    and let the token counts of the lines before the first header, added up
    line by line, stay within the budget.  Then [split_prompt] returns one
    leading chunk when there are lines before the first header (none
    otherwise), followed by exactly N chunks, the sections in order, each
    with exactly one header line. *)
Theorem section_integrity (tk : TiktokenTokenizer) (prompt : string)
    (max_tokens : Z) (system_prompt : string)
    (pre : list string) (sections : list file_section) :
  let available := available_tokens tk max_tokens system_prompt in
  split_lines prompt = pre ++ List.concat (map section_lines sections) ->
  plain_lines pre ->
  Forall well_formed_section sections ->
  0 < available ->
  line_tokens_sum tk pre <= available ->
  Forall (fun s => count tk (section_text s) <= available) sections ->
  available < count tk prompt ->
  exists leading section_chunks,
    split_prompt tk prompt max_tokens system_prompt
    = Ok (leading ++ section_chunks)
    /\ leading = match pre with [] => [] | _ :: _ => [join_lines pre] end
    /\ section_chunks = map section_text sections
    /\ List.length section_chunks = List.length sections
    /\ Forall (fun chunk => header_lines chunk = 1%nat) section_chunks.
Proof.
  intros available Hlines Hpre Hwf Hpos Hsum Hfit Hbig.
  exists (flush [] pre), (map section_text sections).
  split; [|split; [|split; [|split]]].
  - rewrite split_prompt_large by assumption. fold available.
    rewrite Hlines.
    rewrite split_loop_plain_lines by (assumption || lia).
    rewrite split_loop_sections by assumption.
    reflexivity.
  - destruct pre; reflexivity.
  - reflexivity.
  - apply length_map.
  - apply Forall_forall. intros chunk Hin.
    apply in_map_iff in Hin. destruct Hin as (s & <- & Hs).
    apply section_header_lines.
    + rewrite Forall_forall in Hwf. apply Hwf. assumption.
    + pose proof (split_lines_pieces prompt) as Hlf. rewrite Hlines in Hlf.
      apply Forall_app in Hlf. destruct Hlf as [_ Hlf].
      rewrite Forall_forall in *. intros x Hx. apply Hlf.
      apply in_concat. exists (section_lines s). split; [|assumption].
      apply in_map. assumption.
Qed.

Lemma section_integrity_witness :
  let tk := no_tiktoken in
  let pre := ["## Changes"; ""] in
  let sections := [("# File: a.py", ["xxxxxxxx"]); ("# File: b.py", ["yyyyyyyy"])] in
  let prompt := join_lines (pre ++ List.concat (map section_lines sections)) in
  exists leading section_chunks,
    split_prompt tk prompt 106 "" = Ok (leading ++ section_chunks)
    /\ leading = [join_lines pre]
    /\ section_chunks = map section_text sections
    /\ List.length section_chunks = 2%nat
    /\ Forall (fun chunk => header_lines chunk = 1%nat) section_chunks.
Proof.
  cbv zeta.
  apply (section_integrity no_tiktoken
           (join_lines (["## Changes"; ""]
                        ++ List.concat (map section_lines
                             [("# File: a.py", ["xxxxxxxx"]);
                              ("# File: b.py", ["yyyyyyyy"])])))
           106 "" ["## Changes"; ""]
           [("# File: a.py", ["xxxxxxxx"]); ("# File: b.py", ["yyyyyyyy"])]).
  - reflexivity.
  - repeat constructor.
  - repeat constructor.
  - reflexivity.
  - vm_compute. discriminate.
  - repeat constructor; vm_compute; discriminate.
  - reflexivity.
Defined.

(** *** The header put back by [_split_large_section] *)

Lemma file_header_truthy (line : string) :
  is_file_header line = true -> truthy line = true.
Proof.
  destruct line; [discriminate|reflexivity].
Qed.

(** A section of a header and one line, each within the budget but not
    both together: [_split_large_section] closes a chunk after the header,
    puts the header back and adds the line without counting the header.
    The second chunk is the whole section again. *)
Lemma split_large_section_header_and_line (tk : TiktokenTokenizer)
    (header line : string) (max_tokens : Z) :
  is_file_header header = true ->
  has_LF header = false -> has_LF line = false ->
  count tk header <= max_tokens ->
  count tk line <= max_tokens ->
  max_tokens < count tk header + count tk line ->
  _split_large_section tk (join_lines [header; line]) max_tokens
  = Ok [header; join_lines [header; line]].
Proof.
  intros Hh Hlf1 Hlf2 Hfit1 Hfit2 Hover.
  unfold _split_large_section.
  rewrite split_join_lines by (repeat constructor; assumption).
  rewrite Hh. cbn [section_loop].
  destruct (Z.leb_spec (0 + count tk header) max_tokens) as [_|]; [|lia].
  destruct (Z.leb_spec (0 + count tk header + count tk line) max_tokens)
    as [|_]; [lia|].
  cbn [app]. rewrite (file_header_truthy header Hh).
  change (0 <? 0 + 1) with true. cbn [andb].
  destruct (Z.leb_spec (count tk line) max_tokens) as [_|]; [|lia].
  reflexivity.
Qed.

(** The defect for any token counter: a prompt of one header and one
    line, each within the budget, whose counts together exceed it, comes
    back as the header alone followed by the whole prompt. *)
Lemma header_reemission (tk : TiktokenTokenizer) (header line : string)
    (max_tokens : Z) (system_prompt : string) :
  let available := available_tokens tk max_tokens system_prompt in
  is_file_header header = true -> is_file_header line = false ->
  has_LF header = false -> has_LF line = false ->
  count tk header <= available ->
  count tk line <= available ->
  available < count tk header + count tk line ->
  available < count tk (join_lines [header; line]) ->
  split_prompt tk (join_lines [header; line]) max_tokens system_prompt
  = Ok [header; join_lines [header; line]].
Proof.
  intros available Hh Hl Hlf1 Hlf2 Hfit1 Hfit2 Hover Hbig.
  pose proof (count_nonneg tk header). pose proof (count_nonneg tk line).
  rewrite split_prompt_large by (fold available; lia). fold available.
  rewrite split_join_lines by (repeat constructor; assumption).
  simp split_loop. rewrite Hh. simp split_loop. cbv zeta.
  cbn [section_body after_section]. rewrite Hl.
  destruct (Z.leb_spec (count tk (join_lines [header; line])) available)
    as [|_]; [lia|].
  rewrite split_large_section_header_and_line by assumption.
  simp split_loop. reflexivity.
Qed.

(** C1 (P2, chunk bound) fails on the code.  Without [tiktoken] and with
    [max_tokens = 105] the budget is 5 tokens.  The section below has a
    header of 3 tokens and one line of 5 tokens: no line exceeds the
    budget, so nothing is force-split.  [_split_large_section] closes a
    chunk after the header, starts the next one with the header again and
    adds the line after testing the line alone against the budget: the
    second chunk (the whole prompt once more) has 7 tokens. *)
Theorem header_reemission_exceeds_budget :
  let tk := no_tiktoken in
  let prompt := join_lines ["# File: a"; "xxxxxxxxxxxxxxxx"] in
  available_tokens tk 105 "" = 5
  /\ Forall (fun line => count tk line <= 5) (split_lines prompt)
  /\ split_prompt tk prompt 105 "" = Ok ["# File: a"; prompt]
  /\ count tk prompt = 7.
Proof.
  cbv zeta. repeat split; try reflexivity.
  repeat constructor; discriminate.
Qed.

(** The same defect with a header of 151 tokens, a line of 200 tokens and
    [max_tokens = 300]: the second chunk has 350 tokens, more than
    [max_tokens] itself. *)
Lemma header_reemission_exceeds_max_tokens :
  let tk := no_tiktoken in
  let header := ("# File: " ++ str_mul "a" 592)%string in
  let line := str_mul "x" 796 in
  let prompt := join_lines [header; line] in
  available_tokens tk 300 "" = 200
  /\ Forall (fun l => count tk l <= 200) (split_lines prompt)
  /\ split_prompt tk prompt 300 "" = Ok [header; prompt]
  /\ count tk prompt = 350.
Proof.
  cbv zeta. split; [reflexivity|]. split; [|split].
  - vm_compute. repeat constructor; discriminate.
  - vm_compute. reflexivity.
  - vm_compute. reflexivity.
Qed.

End PromptServiceSpec.

(* ===================================================================== *)
(** ** Properties of the retrying transport                              *)
(* ===================================================================== *)

Module RetrySpec.
Import Retry.

Lemma invocations_send (trace : list event) (request : Request) :
  invocations (trace ++ [Send request]) = S (invocations trace).
Proof.
  unfold invocations. rewrite filter_app, length_app. simpl. lia.
Qed.

Lemma invocations_other (trace : list event) (ev : event) :
  is_send ev = false -> invocations (trace ++ [ev]) = invocations trace.
Proof.
  intros H. unfold invocations. rewrite filter_app, length_app. simpl.
  rewrite H. simpl. lia.
Qed.

(** A run of [n] attempts that all fail in a retryable way, the wrapped
    transport having been invoked [a] times before: the loop goes through
    all of them, invokes the transport once for each, and remembers the
    last response it saw. *)
Lemma attempt_loop_failures (self : RetryTransport) (request : Request) :
  forall (n a : nat) (more : list nat) (last : option Response)
         (trace : list event),
    invocations trace = a ->
    (forall j, (a <= j < a + n)%nat ->
               retryable_failure self (transport self j request) = true) ->
    exists last' trace',
      attempt_loop self request (seq a n ++ more) last trace
      = attempt_loop self request more last' trace'
      /\ invocations trace' = (a + n)%nat
      /\ ((forall j, (a <= j < a + n)%nat ->
                     exists e, transport self j request = Raise e) ->
          last' = last)
      /\ (forall r, (0 < n)%nat ->
                    transport self (a + n - 1)%nat request = Ok r ->
                    last' = Some r).
Proof.
  induction n as [|n IH]; intros a more last trace Hinv Hfail.
  - exists last, trace. simpl. repeat split; try lia; auto.
  - change (seq a (S n) ++ more) with (a :: (seq (S a) n ++ more)).
    cbn [attempt_loop]. rewrite Hinv.
    pose proof (Hfail a ltac:(lia)) as Ha.
    destruct (transport self a request) as [response|e] eqn:Eout;
      cbn [retryable_failure] in Ha.
    + rewrite Ha. cbn [negb].
      destruct (IH (S a) more (Some response)
                  (((trace ++ [Send request])
                    ++ [LogWarning (a + 1) (max_retries self) (inl response)])
                   ++ [Sleep (retry_delay self)]))
        as (last' & trace' & Erun & Einv & Hexc & Hresp).
      * rewrite !invocations_other by reflexivity.
        rewrite invocations_send. lia.
      * intros j Hj. apply Hfail. lia.
      * exists last', trace'. split; [exact Erun|]. split; [lia|]. split.
        -- intros Hall. destruct (Hall a ltac:(lia)) as [e He]. congruence.
        -- intros r _ Hr. destruct n as [|n].
           ++ replace (a + 1 - 1)%nat with a in Hr by lia.
              rewrite Hexc by (intros j Hj; lia). congruence.
           ++ apply Hresp; [lia|].
              replace (S a + S n - 1)%nat with (a + S (S n) - 1)%nat by lia.
              exact Hr.
    + unfold retryable_exception in Ha. apply andb_prop in Ha.
      destruct Ha as [Hcaught Hinst]. rewrite Hcaught, Hinst.
      destruct (IH (S a) more last
                  (((trace ++ [Send request])
                    ++ [LogWarning (a + 1) (max_retries self) (inr e)])
                   ++ [Sleep (retry_delay self)]))
        as (last' & trace' & Erun & Einv & Hexc & Hresp).
      * rewrite !invocations_other by reflexivity.
        rewrite invocations_send. lia.
      * intros j Hj. apply Hfail. lia.
      * exists last', trace'. split; [exact Erun|]. split; [lia|]. split.
        -- intros Hall. apply Hexc. intros j Hj. apply Hall. lia.
        -- intros r _ Hr. destruct n as [|n].
           ++ replace (a + 1 - 1)%nat with a in Hr by lia. congruence.
           ++ apply Hresp; [lia|].
              replace (S a + S n - 1)%nat with (a + S (S n) - 1)%nat by lia.
              exact Hr.
Qed.

(** *** Section 8 of the specification: P6 to P9, and zero attempts *)

(** C8 (P6, retry success): let attempts 1 to [k - 1] each end with a
    response of retryable status or with a retryable exception, and let
    attempt [k], with [1 <= k <= max_retries], return a response whose
    status is not retryable.  Then [handle_async_request] returns that
    response, and the wrapped transport has been invoked exactly [k]
    times. *)
Theorem retry_success (self : RetryTransport) (request : Request)
    (k : nat) (response : Response) :
  1 <= Z.of_nat k <= max_retries self ->
  (forall j, (j < k - 1)%nat ->
             retryable_failure self (transport self j request) = true) ->
  transport self (k - 1)%nat request = Ok response ->
  retry_status self response = false ->
  exists trace,
    handle_async_request self request = (Ok response, trace)
    /\ invocations trace = k.
Proof.
  intros Hk Hfail Hok Hstatus. unfold handle_async_request.
  assert (Hn : (1 <= k <= n_attempts self)%nat) by (unfold n_attempts; lia).
  replace (n_attempts self) with ((k - 1) + S (n_attempts self - k))%nat
    by lia.
  rewrite seq_app. cbn [seq]. rewrite Nat.add_0_l.
  destruct (attempt_loop_failures self request (k - 1) 0
              ((k - 1)%nat :: seq (S (k - 1)) (n_attempts self - k)) None [])
    as (last' & trace' & Erun & Einv & _ & _).
  - reflexivity.
  - intros j Hj. apply Hfail. lia.
  - rewrite Erun. cbn [attempt_loop]. rewrite Einv, Nat.add_0_l, Hok, Hstatus.
    cbn [negb]. eexists. split; [reflexivity|].
    rewrite invocations_send. lia.
Qed.

Lemma retry_success_witness :
  exists trace,
    handle_async_request (init (flaky 2)) chat_request
    = (Ok {| status_code := 200; content := "ok" |}, trace)
    /\ invocations trace = 3%nat.
Proof.
  apply (retry_success (init (flaky 2)) chat_request 3
           {| status_code := 200; content := "ok" |}).
  - simpl. lia.
  - intros [|[|j]] Hj; [reflexivity|reflexivity|simpl in Hj; lia].
  - reflexivity.
  - reflexivity.
Defined.

(** C2 (P7, retry exhaustion with response), as stated, fails for a
    transport built with [max_retries = 0]: every attempt would return a
    503, but no attempt is made and the call raises. *)
Lemma exhaustion_with_response_needs_an_attempt :
  let self := with_max_retries 0 (always_responds 503) in
  (forall k, exists r, transport self k chat_request = Ok r
                       /\ retry_status self r = true)
  /\ handle_async_request self chat_request
     = (Raise (all_attempts_failed self chat_request), [])
  /\ ~ (exists r trace,
          handle_async_request self chat_request = (Ok r, trace)).
Proof.
  cbv zeta. split; [|split].
  - intros k. eexists. split; reflexivity.
  - reflexivity.
  - intros (r & trace & H). discriminate H.
Qed.

(** C2 (P7, retry exhaustion with response), amended: with
    [max_retries >= 1], when every attempt returns a response of retryable
    status, [handle_async_request] invokes the wrapped transport exactly
    [max_retries] times and returns the response of the last attempt as it
    is; it does not raise. *)
Theorem retry_exhaustion_with_response (self : RetryTransport)
    (request : Request) :
  1 <= max_retries self ->
  (forall k, Z.of_nat k < max_retries self ->
             exists r, transport self k request = Ok r
                       /\ retry_status self r = true) ->
  exists final trace,
    transport self (Z.to_nat (max_retries self - 1)) request = Ok final
    /\ handle_async_request self request = (Ok final, trace)
    /\ Z.of_nat (invocations trace) = max_retries self.
Proof.
  intros Hpos Hall. unfold handle_async_request.
  assert (Hn : Z.of_nat (n_attempts self) = max_retries self)
    by (unfold n_attempts; lia).
  replace (Z.to_nat (max_retries self - 1)) with (n_attempts self - 1)%nat
    by lia.
  destruct (Hall (n_attempts self - 1)%nat ltac:(lia)) as (final & Hfinal & _).
  destruct (attempt_loop_failures self request (n_attempts self) 0 [] None [])
    as (last' & trace' & Erun & Einv & _ & Hlast).
  - reflexivity.
  - intros j Hj. destruct (Hall j ltac:(lia)) as (r & -> & Hr). exact Hr.
  - rewrite app_nil_r in Erun. rewrite Erun.
    rewrite (Hlast final) by (assumption || lia).
    cbn [attempt_loop]. exists final. eexists.
    split; [exact Hfinal|]. split; [reflexivity|].
    rewrite invocations_other by reflexivity. lia.
Qed.

Lemma retry_exhaustion_with_response_witness :
  exists final trace,
    transport (init (always_responds 503)) 4%nat chat_request = Ok final
    /\ handle_async_request (init (always_responds 503)) chat_request
       = (Ok final, trace)
    /\ Z.of_nat (invocations trace) = 5.
Proof.
  apply (retry_exhaustion_with_response (init (always_responds 503))
           chat_request).
  - simpl. lia.
  - intros k _. eexists. split; reflexivity.
Defined.

(** No exception of the default retryable classes is a direct instance
    of [Exception]. *)
Lemma default_retryable_not_bare (e : exc) :
  isinstance e default_retry_exceptions = true -> exc_type e <> Exception.
Proof.
  intros H Heq. destruct e as [cls msg]. simpl in Heq. subst cls.
  discriminate H.
Qed.

(** C3 (P8, retry exhaustion without response), as stated, fails: the
    error raised on exhaustion is built with the built-in [Exception]
    class, there is no class of its own.  With [Exception] among the
    retryable classes and a transport that raises a plain [Exception],
    the exhaustion error has the very type of the underlying exception. *)
Lemma exhaustion_error_is_a_plain_exception :
  let underlying := mk_exc Exception "connection refused" in
  let self :=
    {| transport := always_raises underlying;
       max_retries := 1;
       retry_delay := Qmake 1 2;
       retry_status_codes := default_retry_status_codes;
       retry_exceptions := [Exception] |} in
  (forall k, exists e, transport self k chat_request = Raise e
                       /\ retryable_exception self e = true)
  /\ fst (handle_async_request self chat_request)
     = Raise (mk_exc Exception
                "All 1 attempts failed for POST https://llm.example/chat/completions")
  /\ ~ (forall err e,
          fst (handle_async_request self chat_request) = Raise err ->
          transport self 0%nat chat_request = Raise e ->
          exc_type err <> exc_type e).
Proof.
  cbv zeta. split; [|split].
  - intros k. eexists. split; reflexivity.
  - reflexivity.
  - intros H. eapply H; reflexivity.
Qed.

(** A negative [max_retries] is accepted as it is: [range(-1)] is empty,
    so that no attempt is made, and the error speaks of [-1] attempts. *)
Remark negative_max_retries_makes_no_attempt :
  handle_async_request
    (with_max_retries (-1) (always_raises (mk_exc ReadTimeout "timed out")))
    chat_request
  = (Raise (mk_exc Exception
              "All -1 attempts failed for POST https://llm.example/chat/completions"),
     []).
Proof. reflexivity. Qed.

(** C3 (P8, retry exhaustion without response), amended: with
    [max_retries >= 0], when every attempt raises a retryable exception,
    [handle_async_request] invokes the wrapped transport exactly
    [max_retries] times and then raises a new exception of the built-in
    class [Exception] whose message carries the number of attempts and
    the request's method and URL; its type differs from the type of every
    underlying exception that is not itself a direct instance of
    [Exception]. *)
Theorem retry_exhaustion_without_response (self : RetryTransport)
    (request : Request) :
  0 <= max_retries self ->
  (forall k, Z.of_nat k < max_retries self ->
             exists e, transport self k request = Raise e
                       /\ retryable_exception self e = true) ->
  exists trace,
    handle_async_request self request
    = (Raise (all_attempts_failed self request), trace)
    /\ Z.of_nat (invocations trace) = max_retries self
    /\ exc_type (all_attempts_failed self request) = Exception
    /\ exc_str (all_attempts_failed self request)
       = ("All " ++ str_of_int (max_retries self)
          ++ " attempts failed for " ++ method request ++ " " ++ url request)%string
    /\ (forall k e, transport self k request = Raise e ->
                    exc_type e <> Exception ->
                    exc_type (all_attempts_failed self request) <> exc_type e)
    /\ (retry_exceptions self = default_retry_exceptions ->
        forall k e, Z.of_nat k < max_retries self ->
                    transport self k request = Raise e ->
                    exc_type (all_attempts_failed self request) <> exc_type e).
Proof.
  intros Hpos Hall. unfold handle_async_request.
  assert (Hn : Z.of_nat (n_attempts self) = max_retries self)
    by (unfold n_attempts; lia).
  destruct (attempt_loop_failures self request (n_attempts self) 0 [] None [])
    as (last' & trace' & Erun & Einv & Hlast & _).
  - reflexivity.
  - intros j Hj. destruct (Hall j ltac:(lia)) as (e & -> & He). exact He.
  - rewrite app_nil_r in Erun. rewrite Erun.
    rewrite Hlast.
    + cbn [attempt_loop]. exists trace'.
      split; [reflexivity|]. split; [lia|]. split; [reflexivity|].
      split; [reflexivity|]. split.
      * intros k e _ Hne Heq. apply Hne. symmetry. exact Heq.
      * intros Hdefault k e Hk He Heq.
        destruct (Hall k Hk) as (e' & He' & Hretry).
        rewrite He in He'. injection He' as <-.
        unfold retryable_exception in Hretry. apply andb_prop in Hretry.
        destruct Hretry as [_ Hinst]. rewrite Hdefault in Hinst.
        apply (default_retryable_not_bare e Hinst). symmetry. exact Heq.
    + intros j Hj. destruct (Hall j ltac:(lia)) as (e & He & _).
      exists e. exact He.
Qed.

Lemma retry_exhaustion_without_response_witness :
  exists trace,
    handle_async_request
      (init (always_raises (mk_exc ConnectTimeout "timed out"))) chat_request
    = (Raise (mk_exc Exception
                "All 5 attempts failed for POST https://llm.example/chat/completions"),
       trace)
    /\ Z.of_nat (invocations trace) = 5.
Proof.
  destruct (retry_exhaustion_without_response
              (init (always_raises (mk_exc ConnectTimeout "timed out")))
              chat_request) as (trace & Hrun & Hinv & _).
  - simpl. lia.
  - intros k _. eexists. split; reflexivity.
  - exists trace. split; [exact Hrun|exact Hinv].
Defined.

(** C9 (P9, non-retryable short-circuit), as stated, fails for a transport
    built with [max_retries = 0]: the first attempt would raise a write
    timeout, which is not retryable, but no attempt is made and the call
    raises the exhaustion error instead. *)
Lemma short_circuit_needs_an_attempt :
  let e := mk_exc WriteTimeout "timed out" in
  let self := with_max_retries 0 (always_raises e) in
  transport self 0%nat chat_request = Raise e
  /\ isinstance e (retry_exceptions self) = false
  /\ handle_async_request self chat_request
     = (Raise (all_attempts_failed self chat_request), [])
  /\ ~ (exists trace,
          handle_async_request self chat_request = (Raise e, trace)
          /\ invocations trace = 1%nat).
Proof.
  cbv zeta. repeat split.
  intros (trace & H & _). discriminate H.
Qed.

(** C9 (P9, non-retryable short-circuit), amended: with
    [max_retries >= 1], when the first attempt raises an exception that is
    not an instance of a retryable class, [handle_async_request] raises
    that same exception after exactly one invocation of the wrapped
    transport: nothing is logged, nothing is slept, nothing is retried. *)
Theorem non_retryable_short_circuit (self : RetryTransport)
    (request : Request) (e : exc) :
  1 <= max_retries self ->
  transport self 0%nat request = Raise e ->
  isinstance e (retry_exceptions self) = false ->
  handle_async_request self request = (Raise e, [Send request])
  /\ invocations (snd (handle_async_request self request)) = 1%nat
  /\ sleeps (snd (handle_async_request self request)) = 0%nat.
Proof.
  intros Hpos Hraise Hinst.
  assert (handle_async_request self request = (Raise e, [Send request]))
    as Hrun.
  { unfold handle_async_request.
    destruct (n_attempts self) as [|n] eqn:Hn;
      [unfold n_attempts in Hn; lia|].
    cbn [seq attempt_loop]. change (invocations []) with 0%nat.
    rewrite Hraise, Hinst.
    destruct (issubclass (exc_type e) Exception); reflexivity. }
  rewrite Hrun. repeat split.
Qed.

Lemma non_retryable_short_circuit_witness :
  handle_async_request
    (init (always_raises (mk_exc WriteTimeout "timed out"))) chat_request
  = (Raise (mk_exc WriteTimeout "timed out"), [Send chat_request]).
Proof.
  apply (non_retryable_short_circuit
           (init (always_raises (mk_exc WriteTimeout "timed out")))
           chat_request (mk_exc WriteTimeout "timed out")).
  - simpl. lia.
  - reflexivity.
  - reflexivity.
Defined.

(** C10 (zero attempts): a transport built with [max_retries = 0] raises
    the exhaustion error for every request and never invokes the wrapped
    transport. *)
Theorem zero_retries_never_sends (self : RetryTransport) (request : Request) :
  max_retries self = 0 ->
  handle_async_request self request
  = (Raise (all_attempts_failed self request), [])
  /\ invocations (snd (handle_async_request self request)) = 0%nat.
Proof.
  intros H. unfold handle_async_request, n_attempts. rewrite H.
  split; reflexivity.
Qed.

Lemma zero_retries_never_sends_witness :
  handle_async_request (with_max_retries 0 (always_responds 200)) chat_request
  = (Raise (mk_exc Exception
              "All 0 attempts failed for POST https://llm.example/chat/completions"),
     []).
Proof.
  apply (zero_retries_never_sends
           (with_max_retries 0 (always_responds 200)) chat_request).
  reflexivity.
Defined.

End RetrySpec.

(* ===================================================================== *)
(** ** Further properties of the retrying transport                      *)
(* ===================================================================== *)

Module RetryProperties.
Import Retry.

Lemma sleeps_sleep (trace : list event) (delay : Q) :
  sleeps (trace ++ [Sleep delay]) = S (sleeps trace).
Proof.
  unfold sleeps. rewrite filter_app, length_app. simpl. lia.
Qed.

Lemma sleeps_other (trace : list event) (ev : event) :
  is_sleep ev = false -> sleeps (trace ++ [ev]) = sleeps trace.
Proof.
  intros H. unfold sleeps. rewrite filter_app, length_app. simpl.
  rewrite H. simpl. lia.
Qed.

Lemma retried_invocations (self : RetryTransport) (request : Request)
    (attempt : nat) (cause : Response + exc) (trace : list event) :
  invocations (retried self request attempt cause trace)
  = S (invocations trace).
Proof.
  unfold retried. rewrite !RetrySpec.invocations_other by reflexivity.
  apply RetrySpec.invocations_send.
Qed.

Lemma retried_sleeps (self : RetryTransport) (request : Request)
    (attempt : nat) (cause : Response + exc) (trace : list event) :
  sleeps (retried self request attempt cause trace) = S (sleeps trace).
Proof.
  unfold retried. rewrite sleeps_sleep, !sleeps_other by reflexivity.
  reflexivity.
Qed.

(** One turn of the loop, by the outcome of the attempt. *)
Lemma attempt_loop_step (self : RetryTransport) (request : Request)
    (attempt : nat) (attempts : list nat) (last : option Response)
    (trace : list event) :
  attempt_loop self request (attempt :: attempts) last trace
  = match transport self (invocations trace) request with
    | Ok response =>
        if retry_status self response then
          attempt_loop self request attempts (Some response)
            (retried self request attempt (inl response) trace)
        else (Ok response, trace ++ [Send request])
    | Raise e =>
        if retryable_exception self e then
          attempt_loop self request attempts last
            (retried self request attempt (inr e) trace)
        else (Raise e, trace ++ [Send request])
    end.
Proof.
  cbn [attempt_loop]. unfold retryable_exception, retried.
  destruct (transport self (invocations trace) request) as [response|e].
  - destruct (retry_status self response); reflexivity.
  - destruct (issubclass (exc_type e) Exception);
      destruct (isinstance e (retry_exceptions self)); reflexivity.
Qed.

(** A run of [n] attempts that all fail in a retryable way costs [n]
    invocations and [n] sleeps. *)
Lemma attempt_loop_retried (self : RetryTransport) (request : Request) :
  forall (n a : nat) (more : list nat) (last : option Response)
         (trace : list event),
    invocations trace = a ->
    (forall j, (a <= j < a + n)%nat ->
               retryable_failure self (transport self j request) = true) ->
    exists last' trace',
      attempt_loop self request (seq a n ++ more) last trace
      = attempt_loop self request more last' trace'
      /\ invocations trace' = (a + n)%nat
      /\ sleeps trace' = (sleeps trace + n)%nat
      /\ ((forall j, (a <= j < a + n)%nat ->
                     exists e, transport self j request = Raise e) ->
          last' = last)
      /\ (forall r, (0 < n)%nat ->
                    transport self (a + n - 1)%nat request = Ok r ->
                    last' = Some r).
Proof.
  induction n as [|n IH]; intros a more last trace Hinv Hfail.
  - exists last, trace. simpl. repeat split; try lia; auto.
  - change (seq a (S n) ++ more) with (a :: (seq (S a) n ++ more)).
    rewrite attempt_loop_step, Hinv.
    pose proof (Hfail a ltac:(lia)) as Ha.
    destruct (transport self a request) as [response|e] eqn:Eout;
      cbn [retryable_failure] in Ha; rewrite Ha.
    + destruct (IH (S a) more (Some response)
                  (retried self request a (inl response) trace))
        as (last' & trace' & Erun & Einv & Esl & Hexc & Hresp).
      * rewrite retried_invocations. lia.
      * intros j Hj. apply Hfail. lia.
      * exists last', trace'. split; [exact Erun|]. split; [lia|].
        split; [rewrite Esl, retried_sleeps; lia|]. split.
        -- intros Hall. destruct (Hall a ltac:(lia)) as [e He]. congruence.
        -- intros r _ Hr. destruct n as [|n].
           ++ replace (a + 1 - 1)%nat with a in Hr by lia.
              rewrite Hexc by (intros j Hj; lia). congruence.
           ++ apply Hresp; [lia|].
              replace (S a + S n - 1)%nat with (a + S (S n) - 1)%nat by lia.
              exact Hr.
    + destruct (IH (S a) more last
                  (retried self request a (inr e) trace))
        as (last' & trace' & Erun & Einv & Esl & Hexc & Hresp).
      * rewrite retried_invocations. lia.
      * intros j Hj. apply Hfail. lia.
      * exists last', trace'. split; [exact Erun|]. split; [lia|].
        split; [rewrite Esl, retried_sleeps; lia|]. split.
        -- intros Hall. apply Hexc. intros j Hj. apply Hall. lia.
        -- intros r _ Hr. destruct n as [|n].
           ++ replace (a + 1 - 1)%nat with a in Hr by lia. congruence.
           ++ apply Hresp; [lia|].
              replace (S a + S n - 1)%nat with (a + S (S n) - 1)%nat by lia.
              exact Hr.
Qed.

(** *** Bounds that hold for every behaviour of the wrapped transport *)

Lemma attempt_loop_bounds (self : RetryTransport) (request : Request) :
  forall (attempts : list nat) (last : option Response) (trace : list event),
    let trace' := snd (attempt_loop self request attempts last trace) in
    (invocations trace <= invocations trace')%nat
    /\ (invocations trace' <= invocations trace + List.length attempts)%nat
    /\ (sleeps trace <= sleeps trace')%nat
    /\ (sleeps trace' + invocations trace
        <= sleeps trace + invocations trace')%nat.
Proof.
  induction attempts as [|attempt attempts IH]; intros last trace.
  - cbn [attempt_loop]. destruct last as [response|]; cbn [snd List.length].
    + rewrite RetrySpec.invocations_other, sleeps_other by reflexivity. lia.
    + lia.
  - rewrite attempt_loop_step. cbn [List.length].
    destruct (transport self (invocations trace) request) as [response|e].
    + destruct (retry_status self response).
      * specialize (IH (Some response)
                      (retried self request attempt (inl response) trace)).
        rewrite retried_invocations, retried_sleeps in IH. cbv zeta in IH. lia.
      * cbn [snd]. rewrite RetrySpec.invocations_send.
        rewrite sleeps_other by reflexivity. lia.
    + destruct (retryable_exception self e).
      * specialize (IH last (retried self request attempt (inr e) trace)).
        rewrite retried_invocations, retried_sleeps in IH. cbv zeta in IH. lia.
      * cbn [snd]. rewrite RetrySpec.invocations_send.
        rewrite sleeps_other by reflexivity. lia.
Qed.

(** X2. Whatever the wrapped transport does, it is invoked at most
    [max(0, max_retries)] times: at most [max_retries] times, and not at
    all when [max_retries] is zero or negative.  The call sleeps at most
    once per invocation. *)
Theorem attempts_never_exceed_max_retries (self : RetryTransport)
    (request : Request) :
  Z.of_nat (invocations (snd (handle_async_request self request)))
  <= Z.max 0 (max_retries self)
  /\ (sleeps (snd (handle_async_request self request))
      <= invocations (snd (handle_async_request self request)))%nat.
Proof.
  unfold handle_async_request.
  pose proof (attempt_loop_bounds self request (seq 0 (n_attempts self))
                None []) as H.
  cbv zeta in H. rewrite length_seq in H.
  change (invocations []) with 0%nat in H. change (sleeps []) with 0%nat in H.
  unfold n_attempts in *. lia.
Qed.

(** *** Where the outcome of a call comes from *)

(** The loop over attempts [a], ..., [a + n - 1], started after [a]
    invocations with [last] as the last response seen.  A returned
    response is the answer of some attempt, or [last]; a raised exception
    is a non-retryable exception of some attempt, or the exhaustion error. *)
Lemma attempt_loop_outcome (self : RetryTransport) (request : Request) :
  forall (n a : nat) (last : option Response) (trace : list event),
    invocations trace = a ->
    let run := attempt_loop self request (seq a n) last trace in
    (forall r, fst run = Ok r ->
       (exists k, (a <= k < a + n)%nat
                  /\ transport self k request = Ok r
                  /\ (forall j, (a <= j < k)%nat ->
                        retryable_failure self (transport self j request)
                        = true)
                  /\ (if retry_status self r
                      then invocations (snd run) = (a + n)%nat
                      else invocations (snd run) = S k))
       \/ (last = Some r /\ invocations (snd run) = (a + n)%nat))
    /\ (forall e, fst run = Raise e ->
          (exists k, (a <= k < a + n)%nat
                     /\ transport self k request = Raise e
                     /\ retryable_exception self e = false
                     /\ (forall j, (a <= j < k)%nat ->
                           retryable_failure self (transport self j request)
                           = true)
                     /\ invocations (snd run) = S k)
          \/ (last = None
              /\ e = all_attempts_failed self request
              /\ invocations (snd run) = (a + n)%nat
              /\ forall j, (a <= j < a + n)%nat ->
                   exists e', transport self j request = Raise e'
                              /\ retryable_exception self e' = true)).
Proof.
  induction n as [|n IH]; intros a last trace Hinv; cbv zeta.
  - cbn [seq attempt_loop]. destruct last as [response|]; cbn [fst snd].
    + split; [|discriminate].
      intros r Hr. injection Hr as <-. right. split; [reflexivity|].
      rewrite RetrySpec.invocations_other by reflexivity. lia.
    + split; [discriminate|].
      intros e He. injection He as <-. right.
      repeat split; intros; lia.
  - cbn [seq]. rewrite attempt_loop_step, Hinv.
    destruct (transport self a request) as [response|e0] eqn:Eout.
    + destruct (retry_status self response) eqn:Estatus.
      * specialize (IH (S a) (Some response)
                      (retried self request a (inl response) trace)
                      (eq_trans (retried_invocations _ _ _ _ _)
                                (f_equal S Hinv))).
        cbv zeta in IH. destruct IH as [IHok IHexc]. split.
        -- intros r Hr. destruct (IHok r Hr)
             as [(k & Hk & Hok & Hbefore & Hcount)|[Hlast Hcount]].
           ++ left. exists k. split; [lia|]. split; [exact Hok|]. split.
              ** intros j Hj. destruct (Nat.eq_dec j a) as [->|Hne].
                 --- rewrite Eout. exact Estatus.
                 --- apply Hbefore. lia.
              ** destruct (retry_status self r); rewrite Hcount; lia.
           ++ injection Hlast as <-. left. exists a. split; [lia|].
              split; [exact Eout|]. split; [intros j Hj; lia|].
              rewrite Estatus, Hcount. lia.
        -- intros e He. destruct (IHexc e He)
             as [(k & Hk & Hraise & Hnot & Hbefore & Hcount)|[Hlast _]];
             [|discriminate Hlast].
           left. exists k. split; [lia|]. split; [exact Hraise|].
           split; [exact Hnot|]. split; [|exact Hcount].
           intros j Hj. destruct (Nat.eq_dec j a) as [->|Hne].
           ++ rewrite Eout. exact Estatus.
           ++ apply Hbefore. lia.
      * cbn [fst snd]. split; [|discriminate].
        intros r Hr. injection Hr as <-. left. exists a.
        split; [lia|]. split; [exact Eout|]. split; [intros j Hj; lia|].
        rewrite Estatus, RetrySpec.invocations_send, Hinv. reflexivity.
    + destruct (retryable_exception self e0) eqn:Eretry.
      * specialize (IH (S a) last
                      (retried self request a (inr e0) trace)
                      (eq_trans (retried_invocations _ _ _ _ _)
                                (f_equal S Hinv))).
        cbv zeta in IH. destruct IH as [IHok IHexc]. split.
        -- intros r Hr. destruct (IHok r Hr)
             as [(k & Hk & Hok & Hbefore & Hcount)|[Hlast Hcount]].
           ++ left. exists k. split; [lia|]. split; [exact Hok|]. split.
              ** intros j Hj. destruct (Nat.eq_dec j a) as [->|Hne].
                 --- rewrite Eout. exact Eretry.
                 --- apply Hbefore. lia.
              ** destruct (retry_status self r); rewrite Hcount; lia.
           ++ right. split; [exact Hlast|]. rewrite Hcount. lia.
        -- intros e He. destruct (IHexc e He)
             as [(k & Hk & Hraise & Hnot & Hbefore & Hcount)
                |(Hlast & Heq & Hcount & Hall)].
           ++ left. exists k. split; [lia|]. split; [exact Hraise|].
              split; [exact Hnot|]. split; [|exact Hcount].
              intros j Hj. destruct (Nat.eq_dec j a) as [->|Hne].
              ** rewrite Eout. exact Eretry.
              ** apply Hbefore. lia.
           ++ right. split; [exact Hlast|]. split; [exact Heq|].
              split; [lia|]. intros j Hj.
              destruct (Nat.eq_dec j a) as [->|Hne].
              ** exists e0. split; [exact Eout|exact Eretry].
              ** apply Hall. lia.
      * cbn [fst snd]. split; [discriminate|].
        intros e He. injection He as <-. left. exists a.
        split; [lia|]. split; [exact Eout|]. split; [exact Eretry|].
        split; [intros j Hj; lia|].
        rewrite RetrySpec.invocations_send, Hinv. reflexivity.
Qed.

(** X3. A response that [handle_async_request] returns is the answer of one
    of the attempts, all earlier attempts having failed in a retryable
    way.  If its status is not retryable, that attempt was the last
    invocation; if it is retryable, all [max_retries] invocations were
    made. *)
Theorem returned_response_is_an_attempt_s_answer (self : RetryTransport)
    (request : Request) (r : Response) (trace : list event) :
  handle_async_request self request = (Ok r, trace) ->
  exists k, Z.of_nat k < max_retries self
            /\ transport self k request = Ok r
            /\ (forall j, (j < k)%nat ->
                  retryable_failure self (transport self j request) = true)
            /\ (if retry_status self r
                then Z.of_nat (invocations trace) = max_retries self
                else invocations trace = S k).
Proof.
  intros Hrun. unfold handle_async_request in Hrun.
  destruct (attempt_loop_outcome self request (n_attempts self) 0 None []
              eq_refl) as [Hok _].
  rewrite Hrun in Hok. cbn [fst snd] in Hok.
  destruct (Hok r eq_refl) as [(k & Hk & Hans & Hbefore & Hcount)|[Habs _]];
    [|discriminate Habs].
  unfold n_attempts in Hk, Hcount.
  exists k. split; [lia|]. split; [exact Hans|]. split.
  - intros j Hj. apply Hbefore. lia.
  - destruct (retry_status self r); [lia|exact Hcount].
Qed.

Lemma returned_response_is_an_attempt_s_answer_witness :
  exists k, Z.of_nat k < 5
            /\ flaky 2 k chat_request
               = Ok {| status_code := 200; content := "ok" |}.
Proof.
  destruct (returned_response_is_an_attempt_s_answer
              (init (flaky 2)) chat_request
              {| status_code := 200; content := "ok" |}
              (snd (handle_async_request (init (flaky 2)) chat_request))
              eq_refl) as (k & Hk & Hans & _).
  exists k. split; [exact Hk|exact Hans].
Defined.

(** X4. An exception that [handle_async_request] raises is either an
    exception of one of the attempts that is not retryable, raised right
    after that attempt, or the exhaustion error, raised after
    [max(0, max_retries)] invocations that all raised retryable
    exceptions: after [max_retries] of them, or after none when
    [max_retries] is zero or negative. *)
Theorem raised_exception_origin (self : RetryTransport)
    (request : Request) (e : exc) (trace : list event) :
  handle_async_request self request = (Raise e, trace) ->
  (exists k, Z.of_nat k < max_retries self
             /\ transport self k request = Raise e
             /\ retryable_exception self e = false
             /\ invocations trace = S k)
  \/ (e = all_attempts_failed self request
      /\ Z.of_nat (invocations trace) = Z.max 0 (max_retries self)
      /\ forall j, Z.of_nat j < max_retries self ->
           exists e', transport self j request = Raise e'
                      /\ retryable_exception self e' = true).
Proof.
  intros Hrun. unfold handle_async_request in Hrun.
  destruct (attempt_loop_outcome self request (n_attempts self) 0 None []
              eq_refl) as [_ Hexc].
  rewrite Hrun in Hexc. cbn [fst snd] in Hexc.
  unfold n_attempts in Hexc.
  destruct (Hexc e eq_refl)
    as [(k & Hk & Hraise & Hnot & _ & Hcount)|(_ & Heq & Hcount & Hall)].
  - left. exists k. split; [lia|]. repeat split; assumption.
  - right. split; [exact Heq|]. split; [lia|].
    intros j Hj. apply Hall. lia.
Qed.

Lemma raised_exception_origin_witness :
  (exists k, Z.of_nat k < 5
             /\ always_raises (mk_exc WriteTimeout "timed out") k chat_request
                = Raise (mk_exc WriteTimeout "timed out"))
  \/ mk_exc WriteTimeout "timed out"
     = all_attempts_failed
         (init (always_raises (mk_exc WriteTimeout "timed out")))
         chat_request.
Proof.
  destruct (raised_exception_origin
              (init (always_raises (mk_exc WriteTimeout "timed out")))
              chat_request (mk_exc WriteTimeout "timed out")
              [Send chat_request] eq_refl)
    as [(k & Hk & Hraise & _)|(Heq & _)].
  - left. exists k. split; [exact Hk|exact Hraise].
  - right. exact Heq.
Defined.

(** *** Sleeps, late failures and stale responses *)

(** X5. Success on attempt [k]: the call has slept after each of the [k - 1]
    failed attempts and not after the successful one. *)
Theorem success_sleeps_between_attempts_only (self : RetryTransport)
    (request : Request) (k : nat) (response : Response) :
  1 <= Z.of_nat k <= max_retries self ->
  (forall j, (j < k - 1)%nat ->
             retryable_failure self (transport self j request) = true) ->
  transport self (k - 1)%nat request = Ok response ->
  retry_status self response = false ->
  fst (handle_async_request self request) = Ok response
  /\ sleeps (snd (handle_async_request self request)) = (k - 1)%nat.
Proof.
  intros Hk Hfail Hok Hstatus. unfold handle_async_request.
  assert (Hn : (1 <= k <= n_attempts self)%nat) by (unfold n_attempts; lia).
  replace (n_attempts self) with ((k - 1) + S (n_attempts self - k))%nat
    by lia.
  rewrite seq_app. cbn [seq]. rewrite Nat.add_0_l.
  destruct (attempt_loop_retried self request (k - 1) 0
              ((k - 1)%nat :: seq (S (k - 1)) (n_attempts self - k)) None [])
    as (last' & trace' & Erun & Einv & Esl & _ & _).
  - reflexivity.
  - intros j Hj. apply Hfail. lia.
  - rewrite Erun, attempt_loop_step, Einv, Nat.add_0_l, Hok, Hstatus.
    cbn [fst snd]. split; [reflexivity|].
    rewrite sleeps_other by reflexivity. rewrite Esl. reflexivity.
Qed.

Lemma success_sleeps_between_attempts_only_witness :
  fst (handle_async_request (init (flaky 2)) chat_request)
  = Ok {| status_code := 200; content := "ok" |}
  /\ sleeps (snd (handle_async_request (init (flaky 2)) chat_request))
     = 2%nat.
Proof.
  apply (success_sleeps_between_attempts_only (init (flaky 2)) chat_request 3
           {| status_code := 200; content := "ok" |}).
  - simpl. lia.
  - intros [|[|j]] Hj; [reflexivity|reflexivity|simpl in Hj; lia].
  - reflexivity.
  - reflexivity.
Defined.

(** X6. A non-retryable exception on a later attempt: after [k - 1] attempts
    that failed in a retryable way, an exception of attempt [k] that is not
    retryable is raised as it is, after exactly [k] invocations and
    [k - 1] sleeps; the remaining attempts are not made. *)
Theorem late_non_retryable_exception (self : RetryTransport)
    (request : Request) (k : nat) (e : exc) :
  1 <= Z.of_nat k <= max_retries self ->
  (forall j, (j < k - 1)%nat ->
             retryable_failure self (transport self j request) = true) ->
  transport self (k - 1)%nat request = Raise e ->
  retryable_exception self e = false ->
  fst (handle_async_request self request) = Raise e
  /\ invocations (snd (handle_async_request self request)) = k
  /\ sleeps (snd (handle_async_request self request)) = (k - 1)%nat.
Proof.
  intros Hk Hfail Hraise Hnot. unfold handle_async_request.
  assert (Hn : (1 <= k <= n_attempts self)%nat) by (unfold n_attempts; lia).
  replace (n_attempts self) with ((k - 1) + S (n_attempts self - k))%nat
    by lia.
  rewrite seq_app. cbn [seq]. rewrite Nat.add_0_l.
  destruct (attempt_loop_retried self request (k - 1) 0
              ((k - 1)%nat :: seq (S (k - 1)) (n_attempts self - k)) None [])
    as (last' & trace' & Erun & Einv & Esl & _ & _).
  - reflexivity.
  - intros j Hj. apply Hfail. lia.
  - rewrite Erun, attempt_loop_step, Einv, Nat.add_0_l, Hraise, Hnot.
    cbn [fst snd]. split; [reflexivity|].
    rewrite RetrySpec.invocations_send, sleeps_other by reflexivity.
    rewrite Einv, Esl. split; [lia|reflexivity].
Qed.

Lemma late_non_retryable_exception_witness :
  fst (handle_async_request
         (init (timeouts_then (mk_exc ValueError "bad header")))
         chat_request)
  = Raise (mk_exc ValueError "bad header")
  /\ invocations (snd (handle_async_request
                         (init (timeouts_then (mk_exc ValueError "bad header")))
                         chat_request)) = 3%nat
  /\ sleeps (snd (handle_async_request
                    (init (timeouts_then (mk_exc ValueError "bad header")))
                    chat_request)) = 2%nat.
Proof.
  apply (late_non_retryable_exception
           (init (timeouts_then (mk_exc ValueError "bad header")))
           chat_request 3 (mk_exc ValueError "bad header")).
  - simpl. lia.
  - intros [|[|j]] Hj; [reflexivity|reflexivity|simpl in Hj; lia].
  - reflexivity.
  - reflexivity.
Defined.

(** X7. Exhaustion: when every attempt fails in a retryable way, the call
    makes [max(0, max_retries)] invocations and sleeps as many times, so
    also after the last attempt, and then returns a response of retryable
    status or raises the exhaustion error.  With [max_retries] zero or
    negative that is no invocation and no sleep. *)
Theorem exhaustion_sleeps_after_every_attempt (self : RetryTransport)
    (request : Request) :
  (forall k, Z.of_nat k < max_retries self ->
             retryable_failure self (transport self k request) = true) ->
  Z.of_nat (invocations (snd (handle_async_request self request)))
  = Z.max 0 (max_retries self)
  /\ Z.of_nat (sleeps (snd (handle_async_request self request)))
     = Z.max 0 (max_retries self)
  /\ ((exists r, fst (handle_async_request self request) = Ok r)
      \/ fst (handle_async_request self request)
         = Raise (all_attempts_failed self request)).
Proof.
  intros Hall. unfold handle_async_request.
  assert (Hn : Z.of_nat (n_attempts self) = Z.max 0 (max_retries self))
    by (unfold n_attempts; lia).
  destruct (attempt_loop_retried self request (n_attempts self) 0 [] None [])
    as (last' & trace' & Erun & Einv & Esl & _ & _).
  - reflexivity.
  - intros j Hj. apply Hall. lia.
  - rewrite app_nil_r in Erun. rewrite Erun.
    destruct last' as [response|]; cbn [attempt_loop fst snd].
    + rewrite RetrySpec.invocations_other, sleeps_other by reflexivity.
      rewrite Einv, Esl. cbn [sleeps filter List.length Nat.add].
      split; [exact Hn|]. split; [exact Hn|].
      left. eexists. reflexivity.
    + rewrite Einv, Esl. cbn [sleeps filter List.length Nat.add].
      split; [exact Hn|]. split; [exact Hn|].
      right. reflexivity.
Qed.

Lemma exhaustion_sleeps_after_every_attempt_witness :
  Z.of_nat (invocations
              (snd (handle_async_request (init (flaky 7)) chat_request)))
  = 5
  /\ Z.of_nat (sleeps
                 (snd (handle_async_request (init (flaky 7)) chat_request)))
     = 5.
Proof.
  destruct (exhaustion_sleeps_after_every_attempt (init (flaky 7))
              chat_request) as (Hinv & Hsl & _).
  - intros [|[|[|[|[|k]]]]] Hk; try reflexivity. simpl in Hk. lia.
  - split; [exact Hinv|exact Hsl].
Defined.

(** X8. A stale response: when every attempt fails in a retryable way and
    attempt [j + 1] is the last one that returned a response, the later
    ones having raised, the call returns that response, although the final
    attempts raised exceptions. *)
Theorem exhaustion_returns_last_response_seen (self : RetryTransport)
    (request : Request) (j : nat) (r : Response) :
  Z.of_nat j < max_retries self ->
  (forall k, Z.of_nat k < max_retries self ->
             retryable_failure self (transport self k request) = true) ->
  transport self j request = Ok r ->
  (forall k, (j < k)%nat -> Z.of_nat k < max_retries self ->
             exists e, transport self k request = Raise e) ->
  fst (handle_async_request self request) = Ok r
  /\ Z.of_nat (invocations (snd (handle_async_request self request)))
     = max_retries self.
Proof.
  intros Hj Hall Hok Hlater. unfold handle_async_request.
  assert (Hn : Z.of_nat (n_attempts self) = max_retries self)
    by (unfold n_attempts; lia).
  replace (n_attempts self) with (S j + (n_attempts self - S j))%nat
    at 1 2 by lia.
  rewrite seq_app, Nat.add_0_l.
  destruct (attempt_loop_retried self request (S j) 0
              (seq (S j) (n_attempts self - S j)) None [])
    as (last1 & trace1 & Erun1 & Einv1 & _ & _ & Hlast1).
  - reflexivity.
  - intros k Hk. apply Hall. lia.
  - rewrite Erun1.
    rewrite (Hlast1 r) by (try lia; rewrite Nat.add_0_l, Nat.sub_1_r; exact Hok).
    destruct (attempt_loop_retried self request (n_attempts self - S j)
                (S j) [] (Some r) trace1)
      as (last2 & trace2 & Erun2 & Einv2 & _ & Hlast2 & _).
    + rewrite Einv1. lia.
    + intros k Hk. apply Hall. lia.
    + rewrite app_nil_r in Erun2. rewrite Erun2.
      rewrite Hlast2 by (intros k Hk; apply Hlater; lia).
      cbn [attempt_loop fst snd]. split; [reflexivity|].
      rewrite RetrySpec.invocations_other by reflexivity. lia.
Qed.

Lemma exhaustion_returns_last_response_seen_witness :
  fst (handle_async_request (init responds_once_then_times_out) chat_request)
  = Ok {| status_code := 503; content := "busy" |}
  /\ Z.of_nat (invocations
                 (snd (handle_async_request
                         (init responds_once_then_times_out) chat_request)))
     = 5.
Proof.
  apply (exhaustion_returns_last_response_seen
           (init responds_once_then_times_out) chat_request 0
           {| status_code := 503; content := "busy" |}).
  - simpl. lia.
  - intros [|k] _; reflexivity.
  - reflexivity.
  - intros [|k] Hk _; [lia|]. eexists. reflexivity.
Defined.

End RetryProperties.

(* ===================================================================== *)
(** ** Further properties of the chunker                                 *)
(* ===================================================================== *)

Module ChunkerProperties.
Import PromptServiceSpec.

(** *** Lengths *)

Lemma string_length_append (s t : string) :
  String.length (s ++ t) = (String.length s + String.length t)%nat.
Proof.
  induction s as [|c s IH]; simpl; [reflexivity|]. rewrite IH. reflexivity.
Qed.

Lemma substring_length (s : string) :
  forall i n : nat,
    String.length (String.substring i n s)
    = Nat.min n (String.length s - i).
Proof.
  induction s as [|c s IH]; intros i n.
  - rewrite substring_empty. simpl. lia.
  - destruct i as [|i].
    + destruct n as [|n]; simpl; [reflexivity|].
      rewrite (IH 0%nat n). rewrite Nat.sub_0_r. reflexivity.
    + simpl. apply IH.
Qed.

Lemma join_lines_cons (l : string) (ls : list string) :
  ls <> [] -> join_lines (l :: ls) = (l ++ String LF (join_lines ls))%string.
Proof.
  destruct ls as [|l' ls]; [congruence|]. reflexivity.
Qed.

Lemma join_lines_snoc (ls : list string) (l : string) :
  ls <> [] ->
  join_lines (ls ++ [l]) = (join_lines ls ++ String LF l)%string.
Proof.
  induction ls as [|x ls IH]; [congruence|]. intros _.
  destruct ls as [|y ls].
  - reflexivity.
  - change ((x :: y :: ls) ++ [l]) with (x :: ((y :: ls) ++ [l])).
    rewrite (join_lines_cons x ((y :: ls) ++ [l])) by (simpl; discriminate).
    rewrite IH by discriminate.
    rewrite (join_lines_cons x (y :: ls)) by discriminate.
    clear IH. induction x as [|c x IHx]; simpl; [reflexivity|].
    rewrite IHx. reflexivity.
Qed.

(** *** Force-split slices *)

Lemma range_len_index (stop step : Z) (k : nat) :
  0 <= stop -> 0 < step ->
  (k < range_len 0 stop step)%nat ->
  (k * Z.to_nat step < Z.to_nat stop)%nat.
Proof.
  intros Hstop Hstep Hk. unfold range_len in Hk.
  destruct (Z.ltb_spec 0 step) as [_|]; [|lia].
  pose proof (Z.div_mod (stop - 0 + step - 1) step ltac:(lia)) as Hdm.
  pose proof (Z.mod_pos_bound (stop - 0 + step - 1) step Hstep) as Hmod.
  assert (0 <= (stop - 0 + step - 1) / step) by (apply Z.div_pos; lia).
  nia.
Qed.

(** The slices of [_split_large_line] by number and length. *)
Lemma split_large_line_slices (line : string) (max_tokens : Z) :
  0 < max_tokens ->
  exists slices,
    _split_large_line line max_tokens = Ok slices
    /\ Z.of_nat (List.length slices)
       = (len line + 4 * max_tokens - 1) / (4 * max_tokens)
    /\ Forall (fun s => 1 <= len s <= 4 * max_tokens) slices
    /\ (forall k s, nth_error slices k = Some s ->
                    (S k < List.length slices)%nat ->
                    len s = 4 * max_tokens).
Proof.
  intros Hpos. eexists. split; [apply split_large_line_eq; assumption|].
  set (M := Z.to_nat (max_tokens * 4)).
  assert (HM : (1 <= M)%nat) by (unfold M; lia).
  assert (Hidx : forall k, (k < range_len 0 (len line) (max_tokens * 4))%nat ->
                           (k * M < String.length line)%nat).
  { intros k Hk.
    pose proof (range_len_index (len line) (max_tokens * 4) k) as H.
    unfold len in H. rewrite Nat2Z.id in H. apply H; try lia.
    exact Hk. }
  split; [|split].
  - rewrite length_map, length_seq. unfold range_len.
    destruct (Z.ltb_spec 0 (max_tokens * 4)) as [_|]; [|lia].
    rewrite Z2Nat.id.
    + f_equal; lia.
    + apply Z.div_pos; unfold len; lia.
  - apply Forall_forall. intros s Hin. apply in_map_iff in Hin.
    destruct Hin as (k & <- & Hk). apply in_seq in Hk.
    unfold len. rewrite substring_length.
    specialize (Hidx k ltac:(lia)). fold M. lia.
  - intros k s Hnth Hnext. rewrite length_map, length_seq in Hnext.
    rewrite nth_error_map, nth_error_seq in Hnth.
    destruct (Nat.ltb_spec k (range_len 0 (len line) (max_tokens * 4)));
      [|lia].
    cbn in Hnth. injection Hnth as <-.
    unfold len. rewrite substring_length.
    specialize (Hidx (S k) Hnext). fold M. lia.
Qed.

(** X9. Force-split slices: as many as [len(line)] divided by
    [4 * max_tokens], rounded up; none is empty, none is longer than
    [4 * max_tokens] characters, and every slice but the last has exactly
    that length. *)
Theorem force_split_slice_lengths (line : string) (max_tokens : Z) :
  0 < max_tokens ->
  exists slices,
    _split_large_line line max_tokens = Ok slices
    /\ Z.of_nat (List.length slices)
       = (len line + 4 * max_tokens - 1) / (4 * max_tokens)
    /\ Forall (fun s => 1 <= len s <= 4 * max_tokens) slices
    /\ (forall k s, nth_error slices k = Some s ->
                    (S k < List.length slices)%nat ->
                    len s = 4 * max_tokens).
Proof. exact (split_large_line_slices line max_tokens). Qed.

Lemma force_split_slice_lengths_witness :
  exists slices,
    _split_large_line "abcdefghij" 1 = Ok slices
    /\ Z.of_nat (List.length slices) = 3
    /\ Forall (fun s => 1 <= len s <= 4) slices.
Proof.
  destruct (force_split_slice_lengths "abcdefghij" 1 eq_refl)
    as (slices & Hrun & Hlen & Hall & _).
  exists slices. split; [exact Hrun|]. split; [exact Hlen|exact Hall].
Defined.

(** The slices of [_split_large_line] under the fallback count. *)
Lemma split_large_line_fallback (line : string)
    (max_tokens : Z) :
  0 < max_tokens ->
  exists slices,
    _split_large_line line max_tokens = Ok slices
    /\ Forall (fun s => count no_tiktoken s <= max_tokens + 1) slices
    /\ (max_tokens < count no_tiktoken line ->
        exists first rest,
          slices = first :: rest
          /\ count no_tiktoken first = max_tokens + 1).
Proof.
  intros Hpos.
  destruct (split_large_line_slices line max_tokens Hpos)
    as (slices & Hrun & Hlen & Hall & Hfull).
  exists slices. split; [exact Hrun|]. split.
  - eapply Forall_impl; [|exact Hall]. intros s Hs. cbv beta in Hs.
    change (count no_tiktoken s) with (len s / 4 + 1).
    assert (len s / 4 <= max_tokens)
      by (apply Z.div_le_upper_bound; lia).
    lia.
  - change (count no_tiktoken line) with (len line / 4 + 1). intros Hbig.
    assert (Hlong : 4 * max_tokens <= len line).
    { destruct (Z.le_gt_cases (4 * max_tokens) (len line)) as [|Hlt];
        [assumption|].
      assert (len line / 4 < max_tokens)
        by (apply Z.div_lt_upper_bound; lia).
      lia. }
    destruct slices as [|first rest].
    + change (Z.of_nat (List.length (@nil string))) with 0 in Hlen.
      assert (1 <= (len line + 4 * max_tokens - 1) / (4 * max_tokens))
        by (apply Z.div_le_lower_bound; lia).
      lia.
    + exists first, rest. split; [reflexivity|].
      change (count no_tiktoken first) with (len first / 4 + 1).
      inversion Hall as [|? ? Hfirst _]; subst.
      assert (len first = 4 * max_tokens) as ->.
      { destruct rest as [|second rest].
        - rewrite split_large_line_eq in Hrun by assumption.
          injection Hrun as Hrun.
          assert (Hone : range_len 0 (len line) (max_tokens * 4) = 1%nat).
          { apply (f_equal (@List.length string)) in Hrun.
            rewrite length_map, length_seq in Hrun. exact Hrun. }
          rewrite Hone in Hrun. cbn in Hrun. injection Hrun as <-.
          unfold len. rewrite substring_length.
          pose proof (range_len_covers (len line) (max_tokens * 4)) as Hcov.
          rewrite Hone in Hcov. unfold len in Hcov, Hlong.
          rewrite Nat2Z.id in Hcov. lia.
        - apply (Hfull 0%nat first eq_refl). cbn. lia. }
      rewrite Z.mul_comm, Z.div_mul by lia. reflexivity.
Qed.

(** X10. Without [tiktoken] every force-split slice counts at most
    [max_tokens + 1] tokens, and a line that does not fit has a first
    slice of exactly [max_tokens + 1] tokens: one more than the budget. *)
Theorem force_split_slices_without_tiktoken (line : string)
    (max_tokens : Z) :
  0 < max_tokens ->
  exists slices,
    _split_large_line line max_tokens = Ok slices
    /\ Forall (fun s => count no_tiktoken s <= max_tokens + 1) slices
    /\ (max_tokens < count no_tiktoken line ->
        exists first rest,
          slices = first :: rest
          /\ count no_tiktoken first = max_tokens + 1).
Proof. exact (split_large_line_fallback line max_tokens). Qed.

Lemma force_split_slices_without_tiktoken_witness :
  exists slices,
    _split_large_line "abcdefghij" 1 = Ok slices
    /\ Forall (fun s => count no_tiktoken s <= 2) slices.
Proof.
  destruct (force_split_slices_without_tiktoken "abcdefghij" 1 eq_refl)
    as (slices & Hrun & Hall & _).
  exists slices. split; [exact Hrun|exact Hall].
Defined.

(** *** The remaining turns of the [while] loop *)

Section MoreLoopSteps.

Variable tk : TiktokenTokenizer.
Variable available : Z.

Lemma split_loop_flush (line : string) (rest chunks : list string)
    (c : string) (cs : list string) (current_tokens : Z) :
  is_file_header line = false ->
  available < current_tokens + count tk line ->
  split_loop tk available (line :: rest) chunks (c :: cs) current_tokens
  = split_loop tk available (line :: rest)
      (chunks ++ [join_lines (c :: cs)]) [] 0.
Proof.
  intros Hh Hover.
  match goal with |- _ = ?r => set (rhs := r) end.
  rewrite split_loop_equation_2, Hh.
  rewrite split_loop_clause_2_equation_2.
  rewrite split_loop_clause_2_clause_2_equation_1.
  destruct (Z.leb_spec (current_tokens + count tk line) available); [lia|].
  rewrite split_loop_clause_2_clause_2_clause_1_equation_3. reflexivity.
Qed.

Lemma split_loop_force (line : string) (rest chunks : list string)
    (current_tokens : Z) :
  is_file_header line = false ->
  available < current_tokens + count tk line ->
  split_loop tk available (line :: rest) chunks [] current_tokens
  = match _split_large_line line available with
    | Ok sub_chunks =>
        split_loop tk available rest (chunks ++ sub_chunks) []
          current_tokens
    | Raise e => Raise e
    end.
Proof.
  intros Hh Hover. simp split_loop. rewrite Hh. simp split_loop.
  destruct (Z.leb_spec (current_tokens + count tk line) available); [lia|].
  simp split_loop. reflexivity.
Qed.

Lemma split_loop_section_too_large (line : string)
    (rest chunks current_chunk : list string) (current_tokens : Z) :
  is_file_header line = true ->
  available < count tk (join_lines (line :: section_body rest)) ->
  split_loop tk available (line :: rest) chunks current_chunk current_tokens
  = match _split_large_section tk (join_lines (line :: section_body rest))
            available with
    | Ok sub_chunks =>
        split_loop tk available (after_section rest)
          (flush chunks current_chunk ++ sub_chunks) []
          (match current_chunk with [] => current_tokens | _ :: _ => 0 end)
    | Raise e => Raise e
    end.
Proof.
  intros Hh Hover. simp split_loop. rewrite Hh. simp split_loop. cbv zeta.
  destruct (Z.leb_spec (count tk (join_lines (line :: section_body rest)))
              available); [lia|reflexivity].
Qed.

End MoreLoopSteps.

(** *** Sections and suffixes *)

Lemma section_body_after_section (lines : list string) :
  section_body lines ++ after_section lines = lines.
Proof.
  induction lines as [|l rest IH]; simpl; [reflexivity|].
  destruct (is_file_header l); simpl; [reflexivity|]. rewrite IH. reflexivity.
Qed.

Lemma sections_fit_suffix (tk : TiktokenTokenizer) (available : Z)
    (pre lines : list string) :
  sections_fit tk available (pre ++ lines) -> sections_fit tk available lines.
Proof.
  induction pre as [|l pre IH]; simpl; [auto|]. intros [_ H]. auto.
Qed.

Lemma sections_fit_after_section (tk : TiktokenTokenizer) (available : Z)
    (lines : list string) :
  sections_fit tk available lines ->
  sections_fit tk available (after_section lines).
Proof.
  intros H. apply (sections_fit_suffix tk available (section_body lines)).
  rewrite section_body_after_section. exact H.
Qed.

Lemma Forall_after_section (P : string -> Prop) (lines : list string) :
  Forall P lines -> Forall P (section_body lines) /\ Forall P (after_section lines).
Proof.
  intros H. rewrite <- (section_body_after_section lines) in H.
  apply Forall_app in H. exact H.
Qed.

Lemma lines_of_app (xs ys : list string) :
  lines_of (xs ++ ys) = lines_of xs ++ lines_of ys.
Proof.
  unfold lines_of. rewrite map_app, concat_app. reflexivity.
Qed.

Lemma lines_of_one (lines : list string) :
  lines <> [] -> Forall (fun x => has_LF x = false) lines ->
  lines_of [join_lines lines] = lines.
Proof.
  intros Hne Hlf. unfold lines_of. cbn [map List.concat].
  rewrite app_nil_r. destruct lines as [|l ls]; [congruence|].
  apply split_join_lines. exact Hlf.
Qed.

Lemma lines_of_flush (chunks current_chunk : list string) :
  Forall (fun x => has_LF x = false) current_chunk ->
  lines_of (flush chunks current_chunk) = lines_of chunks ++ current_chunk.
Proof.
  intros Hlf. destruct current_chunk as [|c cs]; cbn [flush].
  - rewrite app_nil_r. reflexivity.
  - rewrite lines_of_app, lines_of_one by (assumption || discriminate).
    reflexivity.
Qed.

(** *** No line is lost when nothing has to be cut *)

Lemma split_loop_keeps_lines (tk : TiktokenTokenizer) (available : Z)
    (lines chunks current_chunk : list string) (current_tokens : Z) :
  Forall (fun x => has_LF x = false) lines ->
  Forall (fun x => has_LF x = false) current_chunk ->
  (current_chunk = [] -> current_tokens = 0) ->
  plain_lines_fit tk available lines ->
  sections_fit tk available lines ->
  exists chunks',
    split_loop tk available lines chunks current_chunk current_tokens
    = Ok chunks'
    /\ lines_of chunks' = lines_of chunks ++ current_chunk ++ lines.
Proof.
  funelim (split_loop tk available lines chunks current_chunk current_tokens);
    intros Hlf Hcur Hzero Hplain Hsec.
  - eexists. split; [reflexivity|].
    rewrite lines_of_flush by assumption. rewrite app_nil_r. reflexivity.
  - destruct Hsec as [Hfit Hsec]. specialize (Hfit Heq).
    destruct (Z.leb_spec (count tk (join_lines (line :: section_body rest)))
                available_tokens0) as [_|]; [|lia].
    inversion Hlf as [|? ? Hline Hrest]; subst.
    inversion Hplain as [|? ? _ Hplain']; subst.
    destruct (Forall_after_section _ rest Hrest) as [Hbody Hafter].
    destruct (Forall_after_section _ rest Hplain') as [_ Hplain_after].
    destruct H as (chunks' & Hrun & Hlines).
    + exact Hafter.
    + constructor.
    + intros _. destruct current_chunk; [auto|reflexivity].
    + exact Hplain_after.
    + apply sections_fit_after_section. exact Hsec.
    + exists chunks'. split; [exact Hrun|]. rewrite Hlines.
      rewrite lines_of_app, lines_of_flush by assumption.
      rewrite lines_of_one by (discriminate || (constructor; assumption)).
      cbn [app]. rewrite <- !app_assoc. cbn [app].
      rewrite section_body_after_section. reflexivity.
  - inversion Hlf as [|? ? Hline Hrest]; subst.
    inversion Hplain as [|? ? _ Hplain']; subst.
    destruct Hsec as [_ Hsec].
    destruct H as (chunks' & Hrun & Hlines); try assumption.
    + apply Forall_app. split; [assumption|]. constructor; [assumption|constructor].
    + intros Habs. destruct current_chunk; discriminate Habs.
    + exists chunks'. split; [exact Hrun|]. rewrite Hlines.
      rewrite <- !app_assoc. reflexivity.
  - inversion Hplain as [|? ? Hfit _]; subst. specialize (Hfit Heq0).
    rewrite (Hzero eq_refl) in Heq.
    destruct (Z.leb_spec (0 + count tk line) available_tokens0);
      [discriminate|lia].
  - destruct H as (chunks' & Hrun & Hlines); try assumption.
    + constructor.
    + reflexivity.
    + exists chunks'. split; [exact Hrun|]. rewrite Hlines.
      rewrite lines_of_app, lines_of_one by (assumption || discriminate).
      rewrite <- !app_assoc. reflexivity.
Qed.

(** X11. When every section fits the budget and every other line fits it on
    its own, nothing is cut and nothing is repeated: the lines of the
    chunks, in order, are the lines of the prompt. *)
Theorem chunks_keep_the_lines (tk : TiktokenTokenizer) (prompt : string)
    (max_tokens : Z) (system_prompt : string) :
  let available := available_tokens tk max_tokens system_prompt in
  0 < available ->
  plain_lines_fit tk available (split_lines prompt) ->
  sections_fit tk available (split_lines prompt) ->
  exists chunks,
    split_prompt tk prompt max_tokens system_prompt = Ok chunks
    /\ lines_of chunks = split_lines prompt.
Proof.
  intros available Hpos Hplain Hsec.
  destruct (Z.le_gt_cases (count tk prompt) available) as [Hfit|Hbig].
  - exists [prompt]. split.
    + apply split_prompt_identity; assumption.
    + unfold lines_of. cbn [map List.concat]. apply app_nil_r.
  - rewrite split_prompt_large by (fold available; lia). fold available.
    destruct (split_loop_keeps_lines tk available (split_lines prompt)
                [] [] 0) as (chunks & Hrun & Hlines); auto.
    + apply split_lines_pieces.
    + exists chunks. split; [exact Hrun|]. rewrite Hlines. reflexivity.
Qed.

Lemma chunks_keep_the_lines_witness :
  exists chunks,
    split_prompt no_tiktoken
      (join_lines ["## Changes"; ""; "# File: a.py"; "xxxxxxxx";
                   "# File: b.py"; "yyyyyyyy"]) 106 ""
    = Ok chunks
    /\ lines_of chunks
       = ["## Changes"; ""; "# File: a.py"; "xxxxxxxx";
          "# File: b.py"; "yyyyyyyy"].
Proof.
  apply (chunks_keep_the_lines no_tiktoken
           (join_lines ["## Changes"; ""; "# File: a.py"; "xxxxxxxx";
                        "# File: b.py"; "yyyyyyyy"]) 106 "").
  - reflexivity.
  - repeat constructor; intros _; vm_compute; discriminate.
  - repeat split; intros _; vm_compute; discriminate.
Defined.

(** *** The chunk bound without [tiktoken] *)

(** X12. Without [tiktoken], joining lines costs no more than the lines cost
    one by one: the sum the accumulator keeps is an upper bound of the
    token count of the chunk it builds. *)
Theorem joined_lines_cost_at_most_their_sum (lines : list string) :
  lines <> [] ->
  count no_tiktoken (join_lines lines) <= line_tokens_sum no_tiktoken lines.
Proof.
  intros Hne. induction lines as [|l ls IH]; [congruence|].
  destruct ls as [|l' ls].
  - cbn [line_tokens_sum fold_right join_lines String.concat]. lia.
  - specialize (IH ltac:(discriminate)).
    rewrite join_lines_cons by discriminate.
    change (line_tokens_sum no_tiktoken (l :: l' :: ls))
      with (count no_tiktoken l + line_tokens_sum no_tiktoken (l' :: ls)).
    change (count no_tiktoken (join_lines (l' :: ls)))
      with (len (join_lines (l' :: ls)) / 4 + 1) in IH.
    change (count no_tiktoken l) with (len l / 4 + 1).
    change (count no_tiktoken (l ++ String LF (join_lines (l' :: ls))))
      with (len (l ++ String LF (join_lines (l' :: ls))) / 4 + 1).
    unfold len in *. rewrite string_length_append. cbn [String.length].
    set (x := String.length l) in *.
    set (y := String.length (join_lines (l' :: ls))) in *.
    pose proof (Z.div_mod (Z.of_nat x) 4 ltac:(lia)).
    pose proof (Z.mod_pos_bound (Z.of_nat x) 4 ltac:(lia)).
    pose proof (Z.div_mod (Z.of_nat y) 4 ltac:(lia)).
    pose proof (Z.mod_pos_bound (Z.of_nat y) 4 ltac:(lia)).
    assert (Z.of_nat (x + S y) / 4 < Z.of_nat x / 4 + Z.of_nat y / 4 + 2)
      by (apply Z.div_lt_upper_bound; lia).
    lia.
Qed.

Lemma joined_lines_cost_at_most_their_sum_witness :
  count no_tiktoken (join_lines ["a"; "b"; "c"; "d"])
  <= line_tokens_sum no_tiktoken ["a"; "b"; "c"; "d"].
Proof.
  apply (joined_lines_cost_at_most_their_sum ["a"; "b"; "c"; "d"]).
  discriminate.
Defined.

Lemma fallback_count_snoc (current_chunk : list string) (line : string) :
  current_chunk <> [] ->
  count no_tiktoken (join_lines (current_chunk ++ [line]))
  <= count no_tiktoken (join_lines current_chunk) + count no_tiktoken line.
Proof.
  intros Hne. rewrite join_lines_snoc by assumption.
  change (count no_tiktoken (join_lines current_chunk ++ String LF line))
    with (len (join_lines current_chunk ++ String LF line) / 4 + 1).
  change (count no_tiktoken (join_lines current_chunk))
    with (len (join_lines current_chunk) / 4 + 1).
  change (count no_tiktoken line) with (len line / 4 + 1).
  unfold len. rewrite string_length_append. cbn [String.length].
  set (x := String.length (join_lines current_chunk)).
  set (y := String.length line).
  pose proof (Z.div_mod (Z.of_nat x) 4 ltac:(lia)).
  pose proof (Z.mod_pos_bound (Z.of_nat x) 4 ltac:(lia)).
  pose proof (Z.div_mod (Z.of_nat y) 4 ltac:(lia)).
  pose proof (Z.mod_pos_bound (Z.of_nat y) 4 ltac:(lia)).
  assert (Z.of_nat (x + S y) / 4 < Z.of_nat x / 4 + Z.of_nat y / 4 + 2)
    by (apply Z.div_lt_upper_bound; lia).
  lia.
Qed.

Lemma Forall_flush (P : string -> Prop) (chunks current_chunk : list string) :
  Forall P chunks ->
  (current_chunk <> [] -> P (join_lines current_chunk)) ->
  Forall P (flush chunks current_chunk).
Proof.
  intros Hchunks Hcur. destruct current_chunk as [|c cs]; cbn [flush];
    [assumption|].
  apply Forall_app. split; [assumption|].
  constructor; [|constructor]. apply Hcur. discriminate.
Qed.

Lemma plain_lines_fit_after_section (tk : TiktokenTokenizer) (available : Z)
    (lines : list string) :
  plain_lines_fit tk available lines ->
  plain_lines_fit tk available (after_section lines).
Proof.
  intros H. apply (Forall_after_section _ lines H).
Qed.

Lemma split_loop_bound_without_tiktoken (tk : TiktokenTokenizer)
    (available bound : Z)
    (lines chunks current_chunk : list string) (current_tokens : Z) :
  tk = no_tiktoken ->
  0 < available -> available <= bound ->
  Forall (fun c => count tk c <= bound) chunks ->
  (current_chunk = [] -> current_tokens = 0) ->
  (current_chunk <> [] ->
   count tk (join_lines current_chunk) <= current_tokens) ->
  current_tokens <= available ->
  sections_fit tk available lines ->
  (bound = available + 1 \/ plain_lines_fit tk available lines) ->
  exists chunks',
    split_loop tk available lines chunks current_chunk current_tokens
    = Ok chunks'
    /\ Forall (fun c => count tk c <= bound) chunks'.
Proof.
  funelim (split_loop tk available lines chunks current_chunk current_tokens);
    intros Htk Hpos Hbound Hchunks Hzero Hcost Htok Hsec Hforce.
  - eexists. split; [reflexivity|].
    apply Forall_flush; [assumption|]. intros Hne. specialize (Hcost Hne). lia.
  - destruct Hsec as [Hfit Hsec]. specialize (Hfit Heq).
    destruct (Z.leb_spec (count tk (join_lines (line :: section_body rest)))
                available_tokens0) as [_|]; [|lia].
    apply H; try assumption.
    + apply Forall_app. split.
      * apply Forall_flush; [assumption|]. intros Hne.
        specialize (Hcost Hne). lia.
      * constructor; [lia|constructor].
    + intros _. destruct current_chunk; [auto|reflexivity].
    + congruence.
    + destruct current_chunk; lia.
    + apply sections_fit_after_section. exact Hsec.
    + destruct Hforce as [Hb|Hplain]; [left; exact Hb|right].
      inversion Hplain; subst. apply plain_lines_fit_after_section. assumption.
  - apply Z.leb_le in Heq. destruct Hsec as [_ Hsec].
    apply H; try assumption.
    + intros Habs. destruct current_chunk; discriminate Habs.
    + intros _. destruct current_chunk as [|c cs].
      * rewrite (Hzero eq_refl). cbn [app join_lines String.concat]. lia.
      * subst tk.
        pose proof (fallback_count_snoc (c :: cs) line ltac:(discriminate)).
        specialize (Hcost ltac:(discriminate)). lia.
    + destruct Hforce as [Hb|Hplain]; [left; exact Hb|right].
      inversion Hplain; subst. assumption.
  - apply Z.leb_gt in Heq. rewrite (Hzero eq_refl) in Heq.
    destruct Hforce as [Hb|Hplain].
    + destruct (split_large_line_fallback line available_tokens0
                  Hpos) as (slices & Hrun & Hslices & _).
      rewrite Hrun. destruct Hsec as [_ Hsec].
      apply H; try assumption.
      * apply Forall_app. split; [assumption|]. subst tk bound. exact Hslices.
      * left. exact Hb.
    + inversion Hplain as [|? ? Hfit _]; subst. specialize (Hfit Heq0). lia.
  - apply H; try assumption.
    + apply Forall_app. split; [assumption|]. constructor; [|constructor].
      specialize (Hcost ltac:(discriminate)). lia.
    + reflexivity.
    + congruence.
    + lia.
Qed.

(** X13. Without [tiktoken], when every section fits the budget, every chunk
    of [split_prompt] counts at most one token more than the budget, and
    none exceeds the budget when, besides, every line that is not a header
    fits on its own. *)
Theorem chunk_bound_without_tiktoken (prompt : string) (max_tokens : Z)
    (system_prompt : string) :
  let available := available_tokens no_tiktoken max_tokens system_prompt in
  sections_fit no_tiktoken available (split_lines prompt) ->
  exists chunks,
    split_prompt no_tiktoken prompt max_tokens system_prompt = Ok chunks
    /\ Forall (fun c => count no_tiktoken c <= available + 1) chunks
    /\ (plain_lines_fit no_tiktoken available (split_lines prompt) ->
        Forall (fun c => count no_tiktoken c <= available) chunks).
Proof.
  intros available Hsec.
  destruct (Z.le_gt_cases available 0) as [Hsmall|Hpos].
  - exists []. split; [apply split_prompt_budget_too_small; assumption|].
    split; [constructor|intros _; constructor].
  - destruct (Z.le_gt_cases (count no_tiktoken prompt) available)
      as [Hfit|Hbig].
    + exists [prompt]. split; [apply split_prompt_identity; assumption|].
      split; [|intros _]; constructor; (lia || constructor).
    + destruct (split_loop_bound_without_tiktoken no_tiktoken available
                  (available + 1) (split_lines prompt) [] [] 0
                  eq_refl Hpos ltac:(lia) (Forall_nil _) (fun _ => eq_refl)
                  ltac:(congruence) ltac:(lia) Hsec (or_introl eq_refl))
        as (chunks & Hrun & Hall).
      exists chunks. split.
      * rewrite split_prompt_large by (fold available; lia). exact Hrun.
      * split; [exact Hall|]. intros Hplain.
        destruct (split_loop_bound_without_tiktoken no_tiktoken available
                    available (split_lines prompt) [] [] 0
                    eq_refl Hpos ltac:(lia) (Forall_nil _) (fun _ => eq_refl)
                    ltac:(congruence) ltac:(lia) Hsec (or_intror Hplain))
          as (chunks2 & Hrun2 & Hall2).
        rewrite Hrun in Hrun2. injection Hrun2 as <-. exact Hall2.
Qed.

Lemma chunk_bound_without_tiktoken_witness :
  exists chunks,
    split_prompt no_tiktoken
      (join_lines ["a"; "b"; "c"; "d"; "# File: x"]) 103 "" = Ok chunks
    /\ Forall (fun c => count no_tiktoken c <= 3 + 1) chunks
    /\ (plain_lines_fit no_tiktoken 3 ["a"; "b"; "c"; "d"; "# File: x"] ->
        Forall (fun c => count no_tiktoken c <= 3) chunks).
Proof.
  apply (chunk_bound_without_tiktoken
           (join_lines ["a"; "b"; "c"; "d"; "# File: x"]) 103 "").
  repeat split; intros _; vm_compute; discriminate.
Defined.

(** *** The result is empty only when the budget is *)

Lemma flush_not_nil (chunks current_chunk : list string) :
  chunks <> [] \/ current_chunk <> [] -> flush chunks current_chunk <> [].
Proof.
  intros [H|H]; destruct current_chunk as [|c cs]; cbn [flush];
    try assumption; try congruence.
  - destruct chunks; [congruence|discriminate].
  - destruct chunks; discriminate.
Qed.

Lemma app_not_nil_l (xs ys : list string) : xs <> [] -> xs ++ ys <> [].
Proof. destruct xs; [congruence|discriminate]. Qed.

Lemma app_not_nil_r (xs ys : list string) : ys <> [] -> xs ++ ys <> [].
Proof. destruct xs, ys; (congruence || discriminate). Qed.

Lemma split_loop_result_not_nil (tk : TiktokenTokenizer) (available : Z)
    (lines chunks current_chunk : list string) (current_tokens : Z) :
  chunks <> [] \/ current_chunk <> [] ->
  forall chunks',
    split_loop tk available lines chunks current_chunk current_tokens
    = Ok chunks' ->
    chunks' <> [].
Proof.
  funelim (split_loop tk available lines chunks current_chunk current_tokens);
    intros Hne chunks' Hrun.
  - injection Hrun as <-. apply flush_not_nil. exact Hne.
  - pose proof (flush_not_nil chunks current_chunk Hne) as Hflush.
    destruct (count tk (join_lines (line :: section_body rest))
              <=? available_tokens0).
    + eapply H; [|exact Hrun]. left. apply app_not_nil_l. exact Hflush.
    + destruct (_split_large_section tk
                  (join_lines (line :: section_body rest)) available_tokens0)
        as [sub_chunks|e]; [|discriminate Hrun].
      eapply H0; [|exact Hrun]. left. apply app_not_nil_l. exact Hflush.
  - eapply H; [|exact Hrun]. right. apply app_not_nil_r. discriminate.
  - destruct (_split_large_line line available_tokens0) as [sub_chunks|e];
      [|discriminate Hrun].
    eapply H; [|exact Hrun]. left. apply app_not_nil_l.
    destruct Hne as [Hne|Hne]; [exact Hne|congruence].
  - eapply H; [|exact Hrun]. left. apply app_not_nil_r. discriminate.
Qed.

Lemma section_loop_result_not_nil (tk : TiktokenTokenizer)
    (header : option string) (max_tokens : Z) :
  forall (lines : list string) (i : Z) (chunks current_chunk : list string)
         (current_tokens : Z) (sub_chunks : list string),
    chunks <> [] \/ current_chunk <> [] ->
    section_loop tk header max_tokens i lines chunks current_chunk
      current_tokens = Ok sub_chunks ->
    sub_chunks <> [].
Proof.
  induction lines as [|line rest IH];
    intros i chunks cur tok sub_chunks Hne Hrun.
  - cbn [section_loop] in Hrun. injection Hrun as <-.
    apply flush_not_nil. exact Hne.
  - cbn [section_loop] in Hrun.
    destruct (tok + count tk line <=? max_tokens).
    + eapply IH; [|exact Hrun]. right. apply app_not_nil_r. discriminate.
    + destruct cur as [|c cs].
      * destruct Hne as [Hne|Hne]; [|congruence].
        destruct (count tk line <=? max_tokens).
        -- destruct header as [h|]; [destruct (truthy h)|];
             (eapply IH; [|exact Hrun]); right; discriminate.
        -- destruct (_split_large_line line max_tokens) as [slices|e];
             [|discriminate Hrun].
           cbn [bind] in Hrun. eapply IH; [|exact Hrun].
           left. apply app_not_nil_l. exact Hne.
      * assert (Hflushed : chunks ++ [join_lines (c :: cs)] <> [])
          by (apply app_not_nil_r; discriminate).
        destruct header as [h|]; [destruct (truthy h && (0 <? i))|];
          (destruct (count tk line <=? max_tokens);
           [ try (destruct (truthy h)); (eapply IH; [|exact Hrun]); right;
             apply app_not_nil_r; discriminate
           | destruct (_split_large_line line max_tokens) as [slices|e];
             [|discriminate Hrun];
             cbn [bind] in Hrun; (eapply IH; [|exact Hrun]); left;
             apply app_not_nil_l; exact Hflushed ]).
Qed.

Lemma force_split_not_nil (line : string) (max_tokens : Z)
    (slices : list string) :
  0 < max_tokens -> line <> "" ->
  _split_large_line line max_tokens = Ok slices -> slices <> [].
Proof.
  intros Hpos Hline Hrun.
  destruct (split_large_line_slices line max_tokens Hpos)
    as (slices' & Hrun' & Hlen & _).
  rewrite Hrun in Hrun'. injection Hrun' as <-.
  intros ->. change (Z.of_nat (List.length (@nil string))) with 0 in Hlen.
  assert (1 <= len line)
    by (destruct line; [congruence|unfold len; cbn [String.length]; lia]).
  assert (1 <= (len line + 4 * max_tokens - 1) / (4 * max_tokens))
    by (apply Z.div_le_lower_bound; lia).
  lia.
Qed.

(** A line that does not fit a budget that the empty string fits is not
    empty. *)
Lemma over_long_line_not_empty (tk : TiktokenTokenizer) (line : string)
    (available : Z) :
  count tk "" <= available -> available < count tk line -> line <> "".
Proof.
  intros Hempty Hover ->. lia.
Qed.

Lemma split_large_section_not_nil (tk : TiktokenTokenizer) (section : string)
    (max_tokens : Z) (sub_chunks : list string) :
  0 < max_tokens -> count tk "" <= max_tokens ->
  _split_large_section tk section max_tokens = Ok sub_chunks ->
  sub_chunks <> [].
Proof.
  intros Hpos Hempty Hrun. unfold _split_large_section in Hrun.
  destruct (split_lines section) as [|l0 rest] eqn:Elines;
    [exact (False_ind _ (split_lines_not_nil section Elines))|].
  set (header := if is_file_header l0 then Some l0 else None) in Hrun.
  cbn [section_loop] in Hrun.
  destruct (Z.leb_spec (0 + count tk l0) max_tokens) as [Hfit|Hover].
  - eapply section_loop_result_not_nil; [|exact Hrun].
    right. discriminate.
  - cbn [app] in Hrun.
    destruct (Z.leb_spec (count tk l0) max_tokens) as [|_]; [lia|].
    destruct (_split_large_line l0 max_tokens) as [slices|e] eqn:Eforce;
      [|discriminate Hrun].
    cbn [bind] in Hrun.
    assert (Hslices : slices <> []).
    { apply (force_split_not_nil l0 max_tokens); try assumption.
      apply (over_long_line_not_empty tk l0 max_tokens); lia. }
    eapply section_loop_result_not_nil; [|exact Hrun].
    left. cbn [app]. destruct header as [h|]; [destruct (truthy h)|];
      destruct slices; (congruence || discriminate).
Qed.

(** X14. [split_prompt] returns the empty list exactly when the budget
    the code computes, [available_tokens], is not positive: [max_tokens]
    less the reserve of 100 and less the token count of the system
    prompt, an empty system prompt being counted as nothing.  This holds
    for a counter that gives the empty string at most one token (as the
    fallback counter does, and as an encoding that has no token for the
    empty string does). *)
Theorem empty_result_means_no_budget (tk : TiktokenTokenizer)
    (prompt : string) (max_tokens : Z) (system_prompt : string) :
  count tk "" <= 1 ->
  (split_prompt tk prompt max_tokens system_prompt = Ok []
   <-> available_tokens tk max_tokens system_prompt <= 0).
Proof.
  intros Hempty. split; [|apply split_prompt_budget_too_small].
  intros Hrun.
  destruct (Z.le_gt_cases (available_tokens tk max_tokens system_prompt) 0)
    as [|Hpos]; [assumption|exfalso].
  set (available := available_tokens tk max_tokens system_prompt) in *.
  destruct (Z.le_gt_cases (count tk prompt) available) as [Hfit|Hbig].
  - rewrite split_prompt_identity in Hrun by assumption. discriminate Hrun.
  - rewrite split_prompt_large in Hrun by (fold available; lia).
    fold available in Hrun.
    destruct (split_lines prompt) as [|line rest] eqn:Elines;
      [exact (split_lines_not_nil prompt Elines)|].
    destruct (is_file_header line) eqn:Ehead.
    + destruct (Z.le_gt_cases
                  (count tk (join_lines (line :: section_body rest)))
                  available) as [Hsec|Hsec].
      * rewrite split_loop_section_fits in Hrun by assumption.
        apply split_loop_result_not_nil in Hrun; [congruence|].
        left. discriminate.
      * rewrite split_loop_section_too_large in Hrun by assumption.
        destruct (_split_large_section tk
                    (join_lines (line :: section_body rest)) available)
          as [sub_chunks|e] eqn:Esub; [|discriminate Hrun].
        apply split_loop_result_not_nil in Hrun; [congruence|].
        left. cbn [flush app].
        apply (split_large_section_not_nil tk
                 (join_lines (line :: section_body rest)) available);
          try assumption.
        lia.
    + destruct (Z.le_gt_cases (0 + count tk line) available) as [Hline|Hline].
      * rewrite split_loop_append in Hrun by assumption.
        apply split_loop_result_not_nil in Hrun; [congruence|].
        right. discriminate.
      * rewrite split_loop_force in Hrun by assumption.
        destruct (_split_large_line line available) as [slices|e] eqn:Eforce;
          [|discriminate Hrun].
        apply split_loop_result_not_nil in Hrun; [congruence|].
        left. cbn [app].
        apply (force_split_not_nil line available); try assumption.
        apply (over_long_line_not_empty tk line available); lia.
Qed.

Lemma empty_result_means_no_budget_witness :
  split_prompt no_tiktoken "## Changes" 100 "" = Ok []
  <-> available_tokens no_tiktoken 100 "" <= 0.
Proof.
  apply (empty_result_means_no_budget no_tiktoken "## Changes" 100 "").
  vm_compute. discriminate.
Defined.

(** *** Sub-chunks of an over-large section *)

Lemma startswith_append (h x : string) : startswith (h ++ x) h = true.
Proof.
  unfold startswith. induction h as [|c h IH]; simpl.
  - destruct x; reflexivity.
  - destruct (ascii_dec c c) as [_|Hne]; [exact IH|congruence].
Qed.

Lemma startswith_join (h : string) (tl : list string) :
  startswith (join_lines (h :: tl)) h = true.
Proof.
  destruct tl as [|l tl].
  - cbn [join_lines String.concat].
    rewrite <- (append_empty_right h) at 1. apply startswith_append.
  - rewrite join_lines_cons by discriminate. apply startswith_append.
Qed.

Lemma section_loop_chunks_start_with_header (tk : TiktokenTokenizer)
    (h : string) (max_tokens : Z) :
  truthy h = true ->
  forall (lines : list string) (i : Z) (chunks tl : list string)
         (current_tokens : Z) (sub_chunks : list string),
    0 < i ->
    Forall (fun c => startswith c h = true) chunks ->
    section_loop tk (Some h) max_tokens i lines chunks (h :: tl)
      current_tokens = Ok sub_chunks ->
    Forall (fun c => startswith c h = true) sub_chunks.
Proof.
  intros Hh. induction lines as [|line rest IH];
    intros i chunks tl tok sub_chunks Hi Hchunks Hrun.
  - cbn [section_loop flush] in Hrun. injection Hrun as <-.
    apply Forall_app. split; [assumption|].
    constructor; [apply startswith_join|constructor].
  - cbn [section_loop] in Hrun.
    destruct (tok + count tk line <=? max_tokens).
    + cbn [app] in Hrun. eapply IH; [| |exact Hrun]; [lia|assumption].
    + rewrite Hh in Hrun.
      destruct (Z.ltb_spec 0 i) as [_|]; [|lia]. cbn [andb] in Hrun.
      assert (Hflushed : Forall (fun c => startswith c h = true)
                           (chunks ++ [join_lines (h :: tl)])).
      { apply Forall_app. split; [assumption|].
        constructor; [apply startswith_join|constructor]. }
      destruct (count tk line <=? max_tokens).
      * cbn [app] in Hrun. eapply IH; [| |exact Hrun]; [lia|assumption].
      * destruct (_split_large_line line max_tokens) as [slices|e];
          [|discriminate Hrun].
        cbn [bind] in Hrun. eapply IH; [| |exact Hrun]; [lia|].
        apply Forall_app. split; [assumption|].
        apply Forall_forall. intros c Hc. apply in_map_iff in Hc.
        destruct Hc as (slice & <- & _). apply startswith_append.
Qed.

(** X15. When the header of an over-large section fits the budget, every
    sub-chunk that [_split_large_section] returns begins with the header,
    and there is at least one. *)
Theorem sub_chunks_start_with_the_header (tk : TiktokenTokenizer)
    (section header : string) (rest : list string) (max_tokens : Z)
    (sub_chunks : list string) :
  split_lines section = header :: rest ->
  is_file_header header = true ->
  count tk header <= max_tokens ->
  _split_large_section tk section max_tokens = Ok sub_chunks ->
  sub_chunks <> []
  /\ Forall (fun c => startswith c header = true) sub_chunks.
Proof.
  intros Hlines Hhead Hfit Hrun. unfold _split_large_section in Hrun.
  rewrite Hlines, Hhead in Hrun. cbn [section_loop] in Hrun.
  destruct (Z.leb_spec (0 + count tk header) max_tokens) as [_|]; [|lia].
  cbn [app] in Hrun. split.
  - eapply section_loop_result_not_nil; [|exact Hrun]. right. discriminate.
  - eapply (section_loop_chunks_start_with_header tk header max_tokens
              (file_header_truthy header Hhead)); [| |exact Hrun].
    + lia.
    + constructor.
Qed.

Lemma sub_chunks_start_with_the_header_witness :
  exists sub_chunks,
    _split_large_section no_tiktoken
      (join_lines ["# File: a"; "xxxxxxxxxxxxxxxx"; "yyyyyyyyyyyyyyyy"]) 5
    = Ok sub_chunks
    /\ sub_chunks <> []
    /\ Forall (fun c => startswith c "# File: a" = true) sub_chunks.
Proof.
  eexists. split; [reflexivity|].
  apply (sub_chunks_start_with_the_header no_tiktoken
           (join_lines ["# File: a"; "xxxxxxxxxxxxxxxx"; "yyyyyyyyyyyyyyyy"])
           "# File: a" ["xxxxxxxxxxxxxxxx"; "yyyyyyyyyyyyyyyy"] 5).
  - reflexivity.
  - reflexivity.
  - vm_compute. discriminate.
  - reflexivity.
Defined.

(** *** A budget that is not positive *)

(** X16. [_split_large_line] called with a budget of zero raises the
    [ValueError] of [range]; called with a negative budget it returns no
    slice at all, whatever the line. *)
Theorem force_split_without_budget (line : string) (max_tokens : Z) :
  (max_tokens = 0 ->
   _split_large_line line max_tokens
   = Raise (mk_exc ValueError "range() arg 3 must not be zero"))
  /\ (max_tokens < 0 -> _split_large_line line max_tokens = Ok []).
Proof.
  split.
  - intros ->. reflexivity.
  - intros Hneg. unfold _split_large_line, range, bind.
    destruct (Z.eqb_spec (max_tokens * 4) 0) as [|_]; [lia|].
    unfold range_len. destruct (Z.ltb_spec 0 (max_tokens * 4)) as [|_]; [lia|].
    assert ((0 - len line - max_tokens * 4 - 1) / - (max_tokens * 4) < 1)
      by (apply Z.div_lt_upper_bound; unfold len; lia).
    replace (Z.to_nat ((0 - len line - max_tokens * 4 - 1)
                       / - (max_tokens * 4))) with 0%nat by lia.
    reflexivity.
Qed.

Lemma force_split_without_budget_witness :
  _split_large_line "abcdefghij" 0
  = Raise (mk_exc ValueError "range() arg 3 must not be zero")
  /\ _split_large_line "abcdefghij" (-1) = Ok [].
Proof.
  split.
  - apply (force_split_without_budget "abcdefghij" 0). reflexivity.
  - apply (force_split_without_budget "abcdefghij" (-1)). reflexivity.
Defined.

End ChunkerProperties.

(* ===================================================================== *)
(** ** More about the tokenizers                                         *)
(* ===================================================================== *)

Module TokenizerProperties.
Import Tokenizer.

(** X17. [TokenizerFactory.get_tokenizer] builds the same [cl100k_base]
    tokenizer for every model name, so the module-level
    [count_tokens(text, model)] counts a text the same way whatever model
    is named, with or without [tiktoken] installed. *)
Theorem model_name_never_changes_the_count
    (tiktoken : option tiktoken_module) (text model : string) :
  get_tokenizer tiktoken model = TiktokenTokenizer_init tiktoken "cl100k_base"
  /\ count_tokens_for tiktoken text model
     = count_tokens (TiktokenTokenizer_init tiktoken "cl100k_base") text.
Proof.
  assert (Hany : forall m,
             get_tokenizer tiktoken m
             = TiktokenTokenizer_init tiktoken "cl100k_base").
  { intros m. unfold get_tokenizer.
    destruct (any_keyword ["gpt"; "openai"; "azure"] (lower m));
      [reflexivity|].
    destruct (any_keyword ["claude"; "anthropic"] (lower m));
      [reflexivity|].
    destruct (contains "gemini" (lower m)); [reflexivity|].
    destruct (any_keyword ["llama"; "ollama"; "litelmm"] (lower m));
      reflexivity. }
  split; [apply Hany|].
  unfold count_tokens_for, _default_tokenizer.
  destruct (String.eqb model "default"); rewrite Hany; reflexivity.
Qed.

(** X18. [SimpleTokenizer.count_tokens] with a positive average returns
    the number [n >= 1] of the block of [average] characters the length
    falls in; an average of zero raises [ZeroDivisionError] on every text,
    and a negative one never counts more than one token. *)
Theorem simple_tokenizer_counts (average : Z) (text : string) :
  (0 < average ->
   exists n, simple_count_tokens average text = Ok n
             /\ 1 <= n
             /\ average * (n - 1) <= len text < average * n)
  /\ (average = 0 ->
      exists e, simple_count_tokens average text = Raise e
                /\ exc_type e = ZeroDivisionError)
  /\ (average < 0 ->
      exists n, simple_count_tokens average text = Ok n /\ n <= 1).
Proof.
  unfold simple_count_tokens.
  assert (Hlen : 0 <= len text) by (unfold len; lia).
  repeat split.
  - intros Hpos.
    destruct (Z.eqb_spec average 0) as [->|_]; [lia|].
    exists (len text / average + 1). split; [reflexivity|].
    pose proof (Z.div_pos (len text) average Hlen Hpos) as Hq.
    pose proof (Z.mul_div_le (len text) average Hpos) as Hlow.
    pose proof (Z.mul_succ_div_gt (len text) average Hpos) as Hhigh.
    replace (len text / average + 1 - 1) with (len text / average) by lia.
    replace (average * (len text / average + 1))
      with (average * Z.succ (len text / average)) by lia.
    lia.
  - intros ->. cbn. eexists. split; reflexivity.
  - intros Hneg.
    destruct (Z.eqb_spec average 0) as [->|_]; [lia|].
    exists (len text / average + 1). split; [reflexivity|].
    pose proof (Z.div_mod (len text) average ltac:(lia)) as Hdiv.
    pose proof (Z.mod_neg_bound (len text) average Hneg) as Hmod.
    assert (len text / average <= 0) by nia.
    lia.
Qed.

Lemma simple_tokenizer_counts_witness :
  (exists n, simple_count_tokens 4 "abcdefghij" = Ok n
             /\ 1 <= n /\ 4 * (n - 1) <= len "abcdefghij" < 4 * n)
  /\ (exists e, simple_count_tokens 0 "abcdefghij" = Raise e
                /\ exc_type e = ZeroDivisionError)
  /\ (exists n, simple_count_tokens (-4) "abcdefghij" = Ok n /\ n <= 1).
Proof.
  split; [|split].
  - apply (simple_tokenizer_counts 4 "abcdefghij"). reflexivity.
  - apply (simple_tokenizer_counts 0 "abcdefghij"). reflexivity.
  - apply (simple_tokenizer_counts (-4) "abcdefghij"). reflexivity.
Defined.

End TokenizerProperties.

(* ===================================================================== *)
(** ** Properties of the prompt files                                    *)
(* ===================================================================== *)

Module PromptFilesProperties.
Import PromptFiles.

Section Resolvers.

Variable load_resource : string -> string -> string -> result source.
Variable read_text : string -> result string.
Variable requests_get : string -> result Response.

(** X19. A missing default resource breaks [resolve_system_prompt_files]
    whatever is configured, also where the default would not be part of
    the result, while [resolve_prompt_files] does not look at the default
    resource once files are configured. *)
Theorem system_prompt_files_need_the_default_resource
    (default_file : string) (e : exc)
    (Hmissing : load_resource "ai_review.prompts" default_file
                  ("ai_review/prompts/" ++ default_file)%string = Raise e) :
  (forall files include,
      resolve_system_prompt_files load_resource files include default_file
      = Raise e)
  /\ (forall file files,
         resolve_prompt_files load_resource (Some (file :: files))
           default_file
         = Ok (file :: files))
  /\ resolve_prompt_files load_resource None default_file = Raise e
  /\ resolve_prompt_files load_resource (Some []) default_file = Raise e.
Proof.
  unfold resolve_system_prompt_files, resolve_prompt_files, default_files.
  rewrite Hmissing. cbn. repeat split; reflexivity.
Qed.

(** X20. Only the system prompts can be switched off: with the default
    resource at hand [resolve_system_prompt_files] returns an empty list
    exactly for an empty list of files with [include] false, and puts the
    default first whenever [include] is true, whereas
    [resolve_prompt_files] never returns an empty list. *)
Theorem only_system_prompts_can_be_switched_off
    (default_file : string) (resource : source)
    (Hfound : load_resource "ai_review.prompts" default_file
                ("ai_review/prompts/" ++ default_file)%string = Ok resource) :
  (forall files include,
      exists sources,
        resolve_system_prompt_files load_resource files include default_file
        = Ok sources
        /\ (sources = [] <-> files = Some [] /\ include = false)
        /\ (include = true ->
            sources = resource :: match files with
                                  | Some files' => files'
                                  | None => []
                                  end))
  /\ (forall files,
         exists source sources,
           resolve_prompt_files load_resource files default_file
           = Ok (source :: sources)).
Proof.
  unfold resolve_system_prompt_files, resolve_prompt_files, default_files.
  rewrite Hfound. cbn. split.
  - intros [[|file files]|] [|]; eexists; (split; [reflexivity|]);
      (split; [split; [try discriminate; auto
                      |intros [? ?]; try discriminate; auto]
              |intros; try discriminate; reflexivity]).
  - intros [[|file files]|]; do 2 eexists; reflexivity.
Qed.

(** A list comprehension over the sources gives one text per source, in
    the order of the sources. *)
Lemma load_all_texts (sources : list source) :
  forall texts,
    load_all read_text requests_get sources = Ok texts ->
    Forall2 (fun src content =>
               _load_prompt_content read_text requests_get src = Ok content)
      sources texts.
Proof.
  induction sources as [|src sources IH]; intros texts Hload.
  - cbn in Hload. injection Hload as <-. constructor.
  - cbn [load_all] in Hload. unfold bind in Hload.
    destruct (_load_prompt_content read_text requests_get src)
      as [content|e] eqn:Hsrc; [|discriminate].
    destruct (load_all read_text requests_get sources)
      as [contents|e] eqn:Hrest; [|discriminate].
    injection Hload as <-. constructor; [exact Hsrc|].
    apply IH. reflexivity.
Qed.

(** The comprehension stops at the first source that cannot be loaded. *)
Lemma load_all_failure (sources : list source) (src : source) :
  In src sources ->
  (forall content,
      _load_prompt_content read_text requests_get src <> Ok content) ->
  exists e, load_all read_text requests_get sources = Raise e.
Proof.
  induction sources as [|src' sources IH]; intros Hin Hbad; [contradiction|].
  cbn [load_all]. unfold bind.
  destruct (_load_prompt_content read_text requests_get src')
    as [content|e] eqn:Hsrc; [|exists e; reflexivity].
  destruct Hin as [->|Hin].
  - exfalso. exact (Hbad content Hsrc).
  - destruct (IH Hin Hbad) as [e He]. rewrite He. exists e. reflexivity.
Qed.

(** X21. One source that is neither a path nor an http(s) URL fails the
    whole load: [load_inline] raises and returns no text at all, whatever
    the other files hold. *)
Theorem unsupported_scheme_fails_the_load
    (self : PromptConfig) (files : list source)
    (scheme url type_repr : string)
    (Hfiles : inline_prompt_files self = Some files)
    (Hin : In (AnyUrl scheme url type_repr) files)
    (Hscheme : supported_scheme scheme = false) :
  exists e, load_inline load_resource read_text requests_get self = Raise e.
Proof.
  unfold load_inline, inline_prompt_files_or_default, resolve_prompt_files.
  rewrite Hfiles.
  destruct files as [|file files]; [contradiction|].
  cbn [bind].
  apply (load_all_failure (file :: files) (AnyUrl scheme url type_repr) Hin).
  intros content. cbn [_load_prompt_content].
  unfold supported_scheme in Hscheme. rewrite Hscheme. discriminate.
Qed.

(** X22. With system prompts included, a successful [load_system_inline]
    returns the text of the packaged default first and then one text per
    configured file, in the order of the configuration. *)
Theorem system_prompt_comes_first
    (self : PromptConfig) (files : list source) (texts : list string)
    (Hfiles : system_inline_prompt_files self = Some files)
    (Hinclude : include_inline_system_prompts self = true)
    (Hload : load_system_inline load_resource read_text requests_get self
             = Ok texts) :
  exists resource content contents,
    load_resource "ai_review.prompts" "default_system_inline.md"
      "ai_review/prompts/default_system_inline.md" = Ok resource
    /\ _load_prompt_content read_text requests_get resource = Ok content
    /\ texts = content :: contents
    /\ Forall2 (fun src text =>
                  _load_prompt_content read_text requests_get src = Ok text)
         files contents.
Proof.
  unfold load_system_inline, system_inline_prompt_files_or_default,
    resolve_system_prompt_files, default_files in Hload.
  rewrite Hfiles, Hinclude in Hload.
  change ("ai_review/prompts/" ++ "default_system_inline.md")%string
    with "ai_review/prompts/default_system_inline.md" in Hload.
  destruct (load_resource "ai_review.prompts" "default_system_inline.md"
              "ai_review/prompts/default_system_inline.md")
    as [resource|e] eqn:Hres; [|discriminate].
  cbn [bind app] in Hload.
  pose proof (load_all_texts _ _ Hload) as Hall.
  inversion Hall as [|src content sources contents Hsrc Hrest]; subst.
  exists resource, content, contents. repeat split; assumption.
Qed.

End Resolvers.

Lemma system_prompt_files_need_the_default_resource_witness :
  resolve_system_prompt_files missing_resource
    (Some [Path "team/system.md"]) false "default_system_inline.md"
  = Raise (mk_exc (mk_class "FileNotFoundError"
                     ["OSError"; "Exception"; "BaseException"; "object"])
             "ai_review/prompts/default_system_inline.md")
  /\ resolve_prompt_files missing_resource
       (Some [Path "team/inline.md"]) "default_system_inline.md"
     = Ok [Path "team/inline.md"].
Proof.
  pose proof (system_prompt_files_need_the_default_resource missing_resource
                "default_system_inline.md" _ eq_refl) as [Hsys [Hown _]].
  split.
  - apply Hsys.
  - apply Hown.
Defined.

Lemma only_system_prompts_can_be_switched_off_witness :
  exists sources,
    resolve_system_prompt_files packaged (Some []) false
      "default_system_inline.md" = Ok sources
    /\ (sources = [] <-> Some (@nil source) = Some [] /\ false = false).
Proof.
  destruct (only_system_prompts_can_be_switched_off packaged
              "default_system_inline.md" _ eq_refl) as [Hsys _].
  destruct (Hsys (Some []) false) as [sources [Hrun [Hempty _]]].
  exists sources. split; assumption.
Defined.

Lemma unsupported_scheme_fails_the_load_witness :
  exists e,
    load_inline packaged echo_file echo_url
      {| inline_prompt_files :=
           Some [Path "team/inline.md";
                 AnyUrl "ftp" "ftp://prompts.example/inline.md"
                   "<class 'pydantic.networks.AnyUrl'>"];
         context_prompt_files := None;
         summary_prompt_files := None;
         inline_reply_prompt_files := None;
         summary_reply_prompt_files := None;
         system_inline_prompt_files := None;
         system_context_prompt_files := None;
         system_summary_prompt_files := None;
         system_inline_reply_prompt_files := None;
         system_summary_reply_prompt_files := None;
         include_inline_system_prompts := true;
         include_context_system_prompts := true;
         include_summary_system_prompts := true;
         include_inline_reply_system_prompts := true;
         include_summary_reply_system_prompts := true |}
    = Raise e.
Proof.
  eapply unsupported_scheme_fails_the_load.
  - reflexivity.
  - right. left. reflexivity.
  - reflexivity.
Defined.

Lemma system_prompt_comes_first_witness :
  exists resource content contents,
    packaged "ai_review.prompts" "default_system_inline.md"
      "ai_review/prompts/default_system_inline.md" = Ok resource
    /\ _load_prompt_content echo_file echo_url resource = Ok content
    /\ ["ai_review/prompts/default_system_inline.md"; "team/system.md";
        "https://prompts.example/system.md"] = content :: contents
    /\ Forall2 (fun src text =>
                  _load_prompt_content echo_file echo_url src = Ok text)
         [Path "team/system.md";
          AnyUrl "https" "https://prompts.example/system.md"
            "<class 'pydantic.networks.AnyUrl'>"]
         contents.
Proof.
  apply (system_prompt_comes_first packaged echo_file echo_url
           {| inline_prompt_files := None;
              context_prompt_files := None;
              summary_prompt_files := None;
              inline_reply_prompt_files := None;
              summary_reply_prompt_files := None;
              system_inline_prompt_files :=
                Some [Path "team/system.md";
                      AnyUrl "https" "https://prompts.example/system.md"
                        "<class 'pydantic.networks.AnyUrl'>"];
              system_context_prompt_files := None;
              system_summary_prompt_files := None;
              system_inline_reply_prompt_files := None;
              system_summary_reply_prompt_files := None;
              include_inline_system_prompts := true;
              include_context_system_prompts := true;
              include_summary_system_prompts := true;
              include_inline_reply_system_prompts := true;
              include_summary_reply_system_prompts := true |}).
  - reflexivity.
  - reflexivity.
  - reflexivity.
Defined.

End PromptFilesProperties.

(* ===================================================================== *)
(** ** Properties of the LiteLLM client                                  *)
(* ===================================================================== *)

Module LiteLLMProperties.
Import LiteLLMSchema.

(** *** [str.strip] *)

Lemma lstrip_head (s : string) :
  forall c rest, lstrip s = String c rest -> isspace c = false.
Proof.
  induction s as [|a s IH]; intros c rest Hs; cbn [lstrip] in Hs.
  - discriminate.
  - destruct (isspace a) eqn:Ha.
    + exact (IH c rest Hs).
    + injection Hs as <- _. exact Ha.
Qed.

Lemma rstrip_head (s : string) :
  forall c rest, rstrip s = String c rest -> exists rest', s = String c rest'.
Proof.
  destruct s as [|a s]; intros c rest Hs; cbn [rstrip] in Hs.
  - discriminate.
  - destruct (rstrip s) as [|k ks].
    + destruct (isspace a); [discriminate|].
      injection Hs as <- _. exists s. reflexivity.
    + injection Hs as <- _. exists s. reflexivity.
Qed.

Lemma rstrip_last (s : string) :
  forall body c, rstrip s = (body ++ String c "")%string ->
                 isspace c = false.
Proof.
  induction s as [|a s IH]; intros body c Hs; cbn [rstrip] in Hs.
  - destruct body; discriminate.
  - destruct (rstrip s) as [|k ks] eqn:Hrest.
    + destruct (isspace a) eqn:Ha; [destruct body; discriminate|].
      destruct body as [|b body]; cbn in Hs.
      * injection Hs as <-. exact Ha.
      * injection Hs as _ Hs. destruct body; discriminate.
    + destruct body as [|b body]; cbn in Hs.
      * discriminate.
      * injection Hs as _ Hs. exact (IH body c Hs).
Qed.

Lemma rstrip_idempotent (s : string) : rstrip (rstrip s) = rstrip s.
Proof.
  induction s as [|a s IH]; [reflexivity|].
  cbn [rstrip].
  destruct (rstrip s) as [|k ks] eqn:Hrest.
  - destruct (isspace a) eqn:Ha; [reflexivity|].
    cbn [rstrip]. rewrite Ha. reflexivity.
  - cbn [rstrip]. cbn [rstrip] in IH. rewrite IH. reflexivity.
Qed.

Lemma strip_idempotent (s : string) : strip (strip s) = strip s.
Proof.
  unfold strip.
  destruct (rstrip (lstrip s)) as [|c rest] eqn:Hs; [reflexivity|].
  destruct (rstrip_head _ _ _ Hs) as [rest' Hl].
  pose proof (lstrip_head _ _ _ Hl) as Hc.
  cbn [lstrip]. rewrite Hc, <- Hs. apply rstrip_idempotent.
Qed.

Lemma strip_edges (s : string) :
  (forall c rest, strip s = String c rest -> isspace c = false)
  /\ (forall body c, strip s = (body ++ String c "")%string ->
                     isspace c = false).
Proof.
  unfold strip. split.
  - intros c rest Hs.
    destruct (rstrip_head _ _ _ Hs) as [rest' Hl].
    exact (lstrip_head _ _ _ Hl).
  - intros body c Hs. exact (rstrip_last _ _ _ Hs).
Qed.

(** X23. [first_text] is the empty string for a response without choices
    and the stripped content of the first choice otherwise, whatever the
    other choices hold; it never begins or ends with white space, and
    stripping it again changes nothing. *)
Theorem first_text_is_stripped (self : LiteLLMChatResponseSchema) :
  (choices self = [] -> first_text self = "")
  /\ (forall choice others,
         choices self = choice :: others ->
         first_text self = strip (content (message choice)))
  /\ strip (first_text self) = first_text self
  /\ (forall c rest, first_text self = String c rest -> isspace c = false)
  /\ (forall body c, first_text self = (body ++ String c "")%string ->
                     isspace c = false).
Proof.
  unfold first_text.
  destruct (choices self) as [|choice others].
  - split; [reflexivity|]. split; [discriminate|]. repeat split.
    + intros c rest H. discriminate.
    + intros [|b body] c H; discriminate.
  - split; [discriminate|]. split.
    + intros choice' others' H. injection H as <- _.
      destruct (content (message choice)); reflexivity.
    + split; [apply strip_idempotent|apply strip_edges].
Qed.

Lemma first_text_is_stripped_witness :
  first_text {| usage := {| total_tokens := 0; prompt_tokens := 0;
                            completion_tokens := 0 |};
                choices := [] |} = ""
  /\ first_text
       {| usage := {| total_tokens := 12; prompt_tokens := 9;
                      completion_tokens := 3 |};
          choices := [ {| message := {| role := assistant;
                                        content := "  LGTM " |} |};
                       {| message := {| role := assistant;
                                        content := "ignored" |} |} ] |}
     = strip "  LGTM ".
Proof.
  split.
  - apply (proj1 (first_text_is_stripped _)). reflexivity.
  - apply (proj1 (proj2 (first_text_is_stripped _))
             {| message := {| role := assistant; content := "  LGTM " |} |}
             [ {| message := {| role := assistant;
                                content := "ignored" |} |} ]).
    reflexivity.
Defined.

End LiteLLMProperties.

(* ===================================================================== *)
(** ** Properties of the review gateway                                  *)
(* ===================================================================== *)

Module GatewayProperties.
Import Tokenizer LLMTypes Gateway.

Section Runs.

Context {E A B : Type}.

Lemma snd_then (m : run E A) (k : A -> run E B) :
  snd (then_ m k)
  = match snd m with
    | Ok a => snd (k a)
    | Raise e => Raise e
    end.
Proof. unfold then_. destruct (snd m); reflexivity. Qed.

Lemma fst_then (m : run E A) (k : A -> run E B) :
  fst (then_ m k)
  = fst m ++ match snd m with
             | Ok a => fst (k a)
             | Raise e => []
             end.
Proof.
  unfold then_. destruct (snd m); cbn [fst]; [reflexivity|].
  symmetry. apply app_nil_r.
Qed.

End Runs.

Section Ask.

Variable Report : Type.
Variable pretty : Report -> result string.
Variable self : ReviewLLMGateway Report.
Variable globals : Globals Report.
Variables prompt prompt_system : string.

Lemma calls_app (t t' : list (event Report)) :
  calls (t ++ t') = calls t ++ calls t'.
Proof. apply filter_app. Qed.

Ltac run_ask :=
  repeat (rewrite ?snd_then, ?fst_then, ?calls_app;
          cbn [snd fst emit call ret]).

(** The calls [ask_try] makes and how it ends, read from what the
    services and the hook do. *)
Lemma ask_try_outcome :
  let r := ask_try pretty self globals prompt prompt_system in
  let started := EmitChatStart prompt prompt_system in
  let asked := LlmChat prompt prompt_system in
  match emit_chat_start globals prompt prompt_system with
  | Raise e => snd r = Raise e /\ calls (fst r) = [started]
  | Ok _ =>
  match llm_chat self prompt prompt_system with
  | Raise e => snd r = Raise e /\ calls (fst r) = [started; asked]
  | Ok result =>
  match cost_calculate self result with
  | Raise e =>
      snd r = Raise e
      /\ calls (fst r) = [started; asked; CostCalculate result]
  | Ok report =>
  let priced :=
    [started; asked; CostCalculate result]
    ++ match report with
       | Some report' => [ReportPretty report']
       | None => []
       end in
  match match report with
        | Some report' => pretty report'
        | None => Ok ""
        end with
  | Raise e => snd r = Raise e /\ calls (fst r) = priced
  | Ok _ =>
  match emit_chat_complete globals result report with
  | Raise e =>
      snd r = Raise e
      /\ calls (fst r) = priced ++ [EmitChatComplete result report]
  | Ok _ =>
  let saved := SaveLlm prompt (text result) report prompt_system in
  match artifacts_save_llm self prompt (text result) report
          prompt_system with
  | Raise e =>
      snd r = Raise e
      /\ calls (fst r) = priced ++ [EmitChatComplete result report; saved]
  | Ok _ =>
      snd r = Ok (Some (text result))
      /\ calls (fst r) = priced ++ [EmitChatComplete result report; saved]
  end end end end end end.
Proof.
  cbv zeta. unfold ask_try. run_ask.
  destruct (max_prompt_tokens globals) as [limit|];
    [destruct (limit <? _)|]; run_ask.
  all: destruct (emit_chat_start globals prompt prompt_system) as [[]|e];
    run_ask; [|split; reflexivity].
  all: destruct (llm_chat self prompt prompt_system) as [result|e];
    run_ask; [|split; reflexivity].
  all: destruct (truthy (text result)); cbn [negb]; run_ask.
  all: destruct (cost_calculate self result) as [[report|]|e];
    run_ask; [| |split; reflexivity].
  all: try (destruct (pretty report) as [message|e];
            run_ask; [|split; reflexivity]).
  all: destruct (emit_chat_complete globals result _) as [[]|e];
    run_ask; [|split; reflexivity].
  all: destruct (artifacts_save_llm self prompt (text result) _
                   prompt_system) as [[]|e];
    run_ask; split; reflexivity.
Qed.

(** [ask] from its [try] block: an exception is caught exactly when it
    is an [Exception], and then the error hook decides how [ask] ends. *)
Lemma ask_outcome :
  let body := ask_try pretty self globals prompt prompt_system in
  let r := ask pretty self globals prompt prompt_system in
  match snd body with
  | Ok a => snd r = Ok a /\ calls (fst r) = calls (fst body)
  | Raise error =>
      if issubclass (exc_type error) Exception then
        snd r = match emit_chat_error globals prompt prompt_system with
                | Ok _ => Ok None
                | Raise e => Raise e
                end
        /\ calls (fst r)
           = calls (fst body) ++ [EmitChatError prompt prompt_system]
      else snd r = Raise error /\ calls (fst r) = calls (fst body)
  end.
Proof.
  cbv zeta. unfold ask, try_except.
  destruct (snd (ask_try pretty self globals prompt prompt_system))
    as [a|error] eqn:Hbody.
  - rewrite Hbody. split; reflexivity.
  - destruct (issubclass (exc_type error) Exception).
    + run_ask.
      destruct (emit_chat_error globals prompt prompt_system) as [[]|e];
        run_ask; split; reflexivity.
    + rewrite Hbody. split; reflexivity.
Qed.

End Ask.

Arguments ask_try_outcome {Report} pretty self globals prompt prompt_system.
Arguments ask_outcome {Report} pretty self globals prompt prompt_system.

Ltac ask_cases pretty self globals prompt prompt_system :=
  let Htry := fresh "Htry" in
  let Hask := fresh "Hask" in
  pose proof (ask_try_outcome pretty self globals prompt prompt_system)
    as Htry;
  pose proof (ask_outcome pretty self globals prompt prompt_system)
    as Hask;
  cbv zeta in Htry, Hask;
  cbn [with_max_prompt_tokens emit_chat_start emit_chat_complete
         emit_chat_error] in Htry, Hask.

Ltac split_cases H :=
  repeat match type of H with
         | match match ?r with _ => _ end with _ => _ end => destruct r
         | match ?x with _ => _ end => destruct x
         end.

(** X24. The token limit is advisory: [max_prompt_tokens] changes neither
    what [ask] returns or raises nor which calls it makes to the hook,
    the model, the cost service and the artifacts; it only adds a line to
    the log. *)
Theorem token_limit_is_advisory {Report : Type}
    (pretty : Report -> result string) (self : ReviewLLMGateway Report)
    (globals : Globals Report) (prompt prompt_system : string)
    (limit : option Z) :
  snd (ask pretty self (with_max_prompt_tokens globals limit)
         prompt prompt_system)
  = snd (ask pretty self globals prompt prompt_system)
  /\ calls (fst (ask pretty self (with_max_prompt_tokens globals limit)
                   prompt prompt_system))
     = calls (fst (ask pretty self globals prompt prompt_system)).
Proof.
  ask_cases pretty self globals prompt prompt_system.
  ask_cases pretty self (with_max_prompt_tokens globals limit)
    prompt prompt_system.
  split_cases Htry.
  all: destruct Htry as [Hs Hc]; destruct Htry0 as [Hs0 Hc0].
  all: rewrite Hs in Hask; rewrite Hs0 in Hask0.
  all: try destruct (issubclass (exc_type e) Exception).
  all: destruct Hask as [-> ->]; destruct Hask0 as [-> ->].
  all: rewrite Hc, Hc0; split; reflexivity.
Qed.

Lemma in_calls {Report : Type} (e : event Report) (trace : list (event Report)) :
  In e (calls trace) -> In e trace.
Proof. unfold calls. intros H. apply filter_In in H. apply H. Qed.

(** X25. A prompt over the limit is still sent: when the total of the two
    token counts exceeds [max_prompt_tokens] and the start hook returns,
    [ask] logs the warning and then calls the model with the whole
    prompt. *)
Theorem over_limit_prompt_is_still_sent {Report : Type}
    (pretty : Report -> result string) (self : ReviewLLMGateway Report)
    (globals : Globals Report) (prompt prompt_system : string) (limit : Z)
    (Hlimit : max_prompt_tokens globals = Some limit)
    (Hover : limit < prompt_total_tokens globals prompt prompt_system)
    (Hstart : emit_chat_start globals prompt prompt_system = Ok tt) :
  let trace := fst (ask pretty self globals prompt prompt_system) in
  In (limit_warning (prompt_total_tokens globals prompt prompt_system) limit)
    trace
  /\ In (LlmChat prompt prompt_system) trace.
Proof.
  cbv zeta. split.
  - assert (Hbody :
              In (limit_warning
                    (prompt_total_tokens globals prompt prompt_system) limit)
                (fst (ask_try pretty self globals prompt prompt_system))).
    { unfold ask_try. rewrite !fst_then. cbn [snd fst emit].
      rewrite Hlimit.
      fold (prompt_total_tokens globals prompt prompt_system).
      apply Z.ltb_lt in Hover. rewrite Hover.
      cbn [fst emit app]. right. right. right. left. reflexivity. }
    unfold ask, try_except.
    destruct (snd (ask_try pretty self globals prompt prompt_system))
      as [a|error]; [exact Hbody|].
    destruct (issubclass (exc_type error) Exception); [|exact Hbody].
    cbn [fst]. apply in_or_app. left. exact Hbody.
  - apply in_calls.
    ask_cases pretty self globals prompt prompt_system.
    rewrite Hstart in Htry.
    split_cases Htry.
    all: destruct Htry as [Hs Hc]; rewrite Hs in Hask.
    all: try destruct (issubclass (exc_type e) Exception).
    all: destruct Hask as [_ ->]; rewrite Hc.
    all: repeat rewrite <- app_assoc; cbn [app]; right; left; reflexivity.
Qed.

(** X26. [ask] lets through only what it cannot handle: an exception that
    leaves [ask] is no [Exception] (a cancellation, say), or it was raised
    by the error hook itself. *)
Theorem ask_raises_only_what_it_cannot_catch {Report : Type}
    (pretty : Report -> result string) (self : ReviewLLMGateway Report)
    (globals : Globals Report) (prompt prompt_system : string) (e : exc)
    (Hraise : snd (ask pretty self globals prompt prompt_system) = Raise e) :
  issubclass (exc_type e) Exception = false
  \/ emit_chat_error globals prompt prompt_system = Raise e.
Proof.
  pose proof (ask_outcome pretty self globals prompt prompt_system) as Hask.
  cbv zeta in Hask.
  destruct (snd (ask_try pretty self globals prompt prompt_system))
    as [a|error].
  - destruct Hask as [Hs _]. congruence.
  - destruct (issubclass (exc_type error) Exception) eqn:Hsub.
    + destruct Hask as [Hs _]. right.
      destruct (emit_chat_error globals prompt prompt_system) as [[]|e'];
        congruence.
    + destruct Hask as [Hs _]. left.
      assert (error = e) by congruence. subst. exact Hsub.
Qed.

(** X27. When the model call fails with an [Exception] and the hooks
    return, [ask] returns [None] instead of raising, and the only calls it
    makes are the start hook, the model and the error hook: no cost is
    calculated and nothing is saved. *)
Theorem failed_chat_returns_none {Report : Type}
    (pretty : Report -> result string) (self : ReviewLLMGateway Report)
    (globals : Globals Report) (prompt prompt_system : string) (e : exc)
    (Hstart : emit_chat_start globals prompt prompt_system = Ok tt)
    (Hchat : llm_chat self prompt prompt_system = Raise e)
    (Hexc : issubclass (exc_type e) Exception = true)
    (Herror : emit_chat_error globals prompt prompt_system = Ok tt) :
  snd (ask pretty self globals prompt prompt_system) = Ok None
  /\ calls (fst (ask pretty self globals prompt prompt_system))
     = [EmitChatStart prompt prompt_system; LlmChat prompt prompt_system;
        EmitChatError prompt prompt_system].
Proof.
  ask_cases pretty self globals prompt prompt_system.
  rewrite Hstart, Hchat in Htry. destruct Htry as [Hs Hc].
  rewrite Hs, Hexc, Herror in Hask. destruct Hask as [-> ->].
  rewrite Hc. split; reflexivity.
Qed.

(** X28. A text comes back only after everything went through: when [ask]
    returns a text, it is the text of the model's answer, and the cost
    service, the completion hook and the artifact store have all
    returned. *)
Theorem answer_is_returned_only_after_saving {Report : Type}
    (pretty : Report -> result string) (self : ReviewLLMGateway Report)
    (globals : Globals Report) (prompt prompt_system reply : string)
    (Hreply : snd (ask pretty self globals prompt prompt_system)
              = Ok (Some reply)) :
  exists result report,
    llm_chat self prompt prompt_system = Ok result
    /\ text result = reply
    /\ cost_calculate self result = Ok report
    /\ emit_chat_complete globals result report = Ok tt
    /\ artifacts_save_llm self prompt reply report prompt_system = Ok tt
    /\ In (SaveLlm prompt reply report prompt_system)
         (fst (ask pretty self globals prompt prompt_system)).
Proof.
  ask_cases pretty self globals prompt prompt_system.
  destruct (emit_chat_start globals prompt prompt_system) as [[]|e0].
  2: { destruct Htry as [Hs _]. rewrite Hs in Hask.
       destruct (issubclass (exc_type e0) Exception);
         destruct Hask as [Hr _]; rewrite Hr in Hreply;
         [destruct (emit_chat_error globals prompt prompt_system)|];
         discriminate. }
  destruct (llm_chat self prompt prompt_system) as [result|e0].
  2: { destruct Htry as [Hs _]. rewrite Hs in Hask.
       destruct (issubclass (exc_type e0) Exception);
         destruct Hask as [Hr _]; rewrite Hr in Hreply;
         [destruct (emit_chat_error globals prompt prompt_system)|];
         discriminate. }
  destruct (cost_calculate self result) as [report|e0] eqn:Hcost.
  2: { destruct Htry as [Hs _]. rewrite Hs in Hask.
       destruct (issubclass (exc_type e0) Exception);
         destruct Hask as [Hr _]; rewrite Hr in Hreply;
         [destruct (emit_chat_error globals prompt prompt_system)|];
         discriminate. }
  cbv zeta in Htry.
  destruct (match report with
            | Some report' => pretty report'
            | None => Ok ""
            end) as [message|e0].
  2: { destruct Htry as [Hs _]. rewrite Hs in Hask.
       destruct (issubclass (exc_type e0) Exception);
         destruct Hask as [Hr _]; rewrite Hr in Hreply;
         [destruct (emit_chat_error globals prompt prompt_system)|];
         discriminate. }
  destruct (emit_chat_complete globals result report) as [[]|e0]
    eqn:Hcomplete.
  2: { destruct Htry as [Hs _]. rewrite Hs in Hask.
       destruct (issubclass (exc_type e0) Exception);
         destruct Hask as [Hr _]; rewrite Hr in Hreply;
         [destruct (emit_chat_error globals prompt prompt_system)|];
         discriminate. }
  destruct (artifacts_save_llm self prompt (text result) report
              prompt_system) as [[]|e0] eqn:Hsave.
  2: { destruct Htry as [Hs _]. rewrite Hs in Hask.
       destruct (issubclass (exc_type e0) Exception);
         destruct Hask as [Hr _]; rewrite Hr in Hreply;
         [destruct (emit_chat_error globals prompt prompt_system)|];
         discriminate. }
  destruct Htry as [Hs Hc]. rewrite Hs in Hask. destruct Hask as [Hr Hcalls].
  rewrite Hr in Hreply. injection Hreply as Htext.
  exists result, report. rewrite <- Htext.
  repeat split; try reflexivity; try assumption.
  apply in_calls. rewrite Hcalls, Hc.
  apply in_or_app. right. right. left. reflexivity.
Qed.


Lemma over_limit_prompt_is_still_sent_witness :
  let prompt := "Review this merge request, please." in
  let prompt_system := "You are a reviewer." in
  let globals := quiet_globals (Some 5) in
  let trace :=
    fst (ask pretty_text (reliable_services "LGTM") globals prompt
           prompt_system) in
  In (limit_warning (prompt_total_tokens globals prompt prompt_system) 5)
    trace
  /\ In (LlmChat prompt prompt_system) trace.
Proof.
  cbv zeta.
  apply (over_limit_prompt_is_still_sent pretty_text
           (reliable_services "LGTM") (quiet_globals (Some 5))
           "Review this merge request, please." "You are a reviewer." 5).
  - reflexivity.
  - vm_compute. reflexivity.
  - reflexivity.
Defined.

Lemma ask_raises_only_what_it_cannot_catch_witness :
  snd (ask pretty_text llm_cancelled (quiet_globals None)
         "Review this merge request, please." "You are a reviewer.")
  = Raise (mk_exc CancelledError "")
  /\ (issubclass (exc_type (mk_exc CancelledError "")) Exception = false
      \/ emit_chat_error (quiet_globals None)
           "Review this merge request, please." "You are a reviewer."
         = Raise (mk_exc CancelledError "")).
Proof.
  split.
  - vm_compute. reflexivity.
  - apply (ask_raises_only_what_it_cannot_catch pretty_text llm_cancelled).
    vm_compute. reflexivity.
Defined.

Lemma failed_chat_returns_none_witness :
  snd (ask pretty_text llm_down (quiet_globals None)
         "Review this merge request, please." "You are a reviewer.")
  = Ok None
  /\ calls (fst (ask pretty_text llm_down (quiet_globals None)
                   "Review this merge request, please."
                   "You are a reviewer."))
     = [EmitChatStart "Review this merge request, please."
          "You are a reviewer.";
        LlmChat "Review this merge request, please." "You are a reviewer.";
        EmitChatError "Review this merge request, please."
          "You are a reviewer."].
Proof.
  eapply (failed_chat_returns_none pretty_text llm_down).
  - reflexivity.
  - reflexivity.
  - reflexivity.
  - reflexivity.
Defined.

Lemma answer_is_returned_only_after_saving_witness :
  exists result report,
    llm_chat (reliable_services "LGTM")
      "Review this merge request, please." "You are a reviewer." = Ok result
    /\ text result = "LGTM"
    /\ cost_calculate (reliable_services "LGTM") result = Ok report
    /\ emit_chat_complete (quiet_globals None) result report = Ok tt
    /\ artifacts_save_llm (reliable_services "LGTM")
         "Review this merge request, please." "LGTM" report
         "You are a reviewer." = Ok tt
    /\ In (SaveLlm "Review this merge request, please." "LGTM" report
             "You are a reviewer.")
         (fst (ask pretty_text (reliable_services "LGTM")
                 (quiet_globals None)
                 "Review this merge request, please."
                 "You are a reviewer.")).
Proof.
  apply (answer_is_returned_only_after_saving pretty_text).
  vm_compute. reflexivity.
Defined.


End GatewayProperties.

(* ===================================================================== *)
(** ** The retries of the LiteLLM client                                 *)
(* ===================================================================== *)

Module LiteLLMHTTPClientProperties.
Import Retry.

(** Every sleep of the loop lasts [retry_delay]. *)
Lemma attempt_loop_sleep_delay (self : RetryTransport) (request : Request) :
  forall (attempts : list nat) (last : option Response) (trace : list event),
    (forall delay, In (Sleep delay) trace -> delay = retry_delay self) ->
    forall delay,
      In (Sleep delay) (snd (attempt_loop self request attempts last trace)) ->
      delay = retry_delay self.
Proof.
  induction attempts as [|attempt attempts IH]; intros last trace Htrace delay.
  - cbn [attempt_loop]. destruct last as [response|]; cbn [snd].
    + intros Hin. apply in_app_or in Hin. destruct Hin as [Hin|[Hin|[]]].
      * exact (Htrace delay Hin).
      * discriminate.
    + apply Htrace.
  - cbn [attempt_loop].
    assert (Hsent : forall d, In (Sleep d) (trace ++ [Send request]) ->
                              d = retry_delay self).
    { intros d Hin. apply in_app_or in Hin. destruct Hin as [Hin|[Hin|[]]].
      - exact (Htrace d Hin).
      - discriminate. }
    assert (Hslept : forall w d,
               In (Sleep d)
                 (((trace ++ [Send request])
                   ++ [LogWarning (attempt + 1) (max_retries self) w])
                  ++ [Sleep (retry_delay self)]) ->
               d = retry_delay self).
    { intros w d Hin.
      apply in_app_or in Hin. destruct Hin as [Hin|[Hin|[]]].
      - apply in_app_or in Hin. destruct Hin as [Hin|[Hin|[]]].
        + exact (Hsent d Hin).
        + discriminate.
      - injection Hin as <-. reflexivity. }
    destruct (transport self (invocations trace) request) as [response|e].
    + destruct (retry_status self response); cbn [negb].
      * apply IH. apply Hslept.
      * cbn [snd]. apply Hsent.
    + destruct (issubclass (exc_type e) Exception).
      * destruct (isinstance e (retry_exceptions self)).
        -- apply IH. apply Hslept.
        -- cbn [snd]. apply Hsent.
      * cbn [snd]. apply Hsent.
Qed.

(** X30. The LiteLLM client, which leaves the retry settings at their
    defaults, sends a request at most five times whatever the server
    does, and every pause between attempts is half a second, so a call
    waits at most two and a half seconds in all. *)
Theorem litellm_client_retry_budget (http_transport : AsyncBaseTransport)
    (request : Request) :
  let trace :=
    snd (handle_async_request
           (LiteLLMHTTPClient.retry_transport http_transport) request) in
  (invocations trace <= 5)%nat
  /\ (sleeps trace <= 5)%nat
  /\ forall delay, In (Sleep delay) trace -> delay = Qmake 1 2.
Proof.
  cbv zeta. unfold LiteLLMHTTPClient.retry_transport, handle_async_request.
  pose proof (RetryProperties.attempt_loop_bounds (init http_transport)
                request (seq 0 (n_attempts (init http_transport))) None [])
    as H.
  cbv zeta in H. rewrite length_seq in H.
  change (invocations []) with 0%nat in H. change (sleeps []) with 0%nat in H.
  change (n_attempts (init http_transport)) with 5%nat in *.
  repeat split; try lia.
  intros delay Hin.
  apply (attempt_loop_sleep_delay (init http_transport) request
           (seq 0 5) None [] (fun d (Hd : In (Sleep d) []) =>
                                match Hd with end) delay Hin).
Qed.

End LiteLLMHTTPClientProperties.
